(** * venue-voter: schema, row security, aggregation view and rating flow

    A shallow embedding of the store-rating application:
    - the relational schema of [supabase/migrations] (tables, CHECK, UNIQUE and
      FOREIGN KEY constraints, ON DELETE CASCADE),
    - the trigger function [handle_new_user] and the view [store_ratings],
    - the row-level-security policies: how the query rewriter expands them
      and what the expanded expressions admit,
    - the client flows of the three dashboards (UserDashboard.tsx,
      StoreOwnerDashboard, AdminDashboard).

    Tables are lists of rows in insertion order.  Every statement is atomic:
    it returns either the new database or an error, never a partial state. *)

From Stdlib Require Import QArith Qabs.
From stdpp Require Import base decidable option list strings gmap numbers sorting.

Open Scope string_scope.
Open Scope list_scope.
Open Scope Z_scope.
Open Scope nat_scope.

(** ** Column types *)

(** [UUID] values are opaque identifiers; only equality is ever used. *)
Definition uuid := N.
Bind Scope N_scope with uuid.
(** [TEXT]: a sequence of characters; [String.length] is SQL [length()]. *)
Definition text := string.
(** [TIMESTAMP WITH TIME ZONE], as an instant on a discrete clock. *)
Definition timestamptz := Z.
Bind Scope Z_scope with timestamptz.

(** [CREATE TYPE public.user_role AS ENUM ('admin', 'normal_user', 'store_owner')] *)
Inductive user_role := admin | normal_user | store_owner.

#[global] Instance user_role_eq_dec : EqDecision user_role.
Proof. solve_decision. Defined.

(** A [jsonb] value as far as the [->>] operator can tell: JSON [null], a
    JSON string, or any other value carried by its text rendering. *)
Inductive jsonb := JNull | JString (s : text) | JOther (rendering : text).

#[global] Instance jsonb_eq_dec : EqDecision jsonb.
Proof. solve_decision. Defined.

(** ** Errors (by SQLSTATE condition name) *)

Inductive pg_error :=
| not_null_violation (column : string)
| check_violation (constraint : string)
| unique_violation (constraint : string)
| foreign_key_violation (constraint : string)
| invalid_text_representation (type_name : string)
| numeric_value_out_of_range (type_name : string)
| insufficient_privilege (relation : string)
| invalid_object_definition (relation : string)
| statement_too_complex.

#[global] Instance pg_error_eq_dec : EqDecision pg_error.
Proof. solve_decision. Defined.

(** The spec's ValidationError: the schema refuses the data, by a constraint
    or by the type of a column. *)
Definition is_validation_error (e : pg_error) : bool :=
  match e with
  | not_null_violation _ | check_violation _ | unique_violation _
  | foreign_key_violation _ | invalid_text_representation _
  | numeric_value_out_of_range _ => true
  | insufficient_privilege _ | invalid_object_definition _ | statement_too_complex => false
  end.

Inductive result (A : Type) := Ok (a : A) | Err (e : pg_error).
Arguments Ok {A} a.
Arguments Err {A} e.

#[global] Instance result_ret : MRet result := λ A a, Ok a.
#[global] Instance result_bind : MBind result := λ A B k m,
  match m with Ok a => k a | Err e => Err e end.

(** [require c e]: raise [e] unless the boolean [c] holds. *)
Definition require (c : bool) (e : pg_error) : result () :=
  if c then Ok () else Err e.

Definition is_ok {A} (m : result A) : bool :=
  match m with Ok _ => true | Err _ => false end.

(** ** Rows *)

(** Modelled from the spec: [auth.users] is declared outside the repository;
    its columns are the inputs the spec lists for the provisioning hook
    (account identifier, email, optional metadata map), which are exactly the
    fields of [NEW] that [handle_new_user] reads. *)
Record account := {
  acct_id : uuid;
  acct_email : text;
  raw_user_meta_data : option (gmap string jsonb)
}.

Record profile := {
  p_id : uuid;
  p_user_id : uuid;
  p_name : text;
  p_email : text;
  p_address : option text;
  p_role : user_role;
  p_created_at : timestamptz;
  p_updated_at : timestamptz
}.

Record store := {
  s_id : uuid;
  s_owner_id : uuid;
  s_name : text;
  s_email : text;
  s_address : text;
  s_created_at : timestamptz;
  s_updated_at : timestamptz
}.

Record rating := {
  r_id : uuid;
  r_user_id : uuid;
  r_store_id : uuid;
  r_rating : Z;
  r_created_at : timestamptz;
  r_updated_at : timestamptz
}.

#[global] Instance account_eq_dec : EqDecision account.
Proof. solve_decision. Defined.
#[global] Instance profile_eq_dec : EqDecision profile.
Proof. solve_decision. Defined.
#[global] Instance store_eq_dec : EqDecision store.
Proof. solve_decision. Defined.
#[global] Instance rating_eq_dec : EqDecision rating.
Proof. solve_decision. Defined.

Record DB := {
  auth_users : list account;
  profiles : list profile;
  stores : list store;
  ratings : list rating
}.

Definition empty_db : DB :=
  {| auth_users := []; profiles := []; stores := []; ratings := [] |}.

Definition with_auth_users (l : list account) (db : DB) : DB :=
  {| auth_users := l; profiles := profiles db; stores := stores db; ratings := ratings db |}.
Definition with_profiles (l : list profile) (db : DB) : DB :=
  {| auth_users := auth_users db; profiles := l; stores := stores db; ratings := ratings db |}.
Definition with_stores (l : list store) (db : DB) : DB :=
  {| auth_users := auth_users db; profiles := profiles db; stores := l; ratings := ratings db |}.
Definition with_ratings (l : list rating) (db : DB) : DB :=
  {| auth_users := auth_users db; profiles := profiles db; stores := stores db; ratings := l |}.

(** ** CHECK constraints *)

(** [CHECK (length(name) >= 20 AND length(name) <= 60)], on both tables. *)
Definition name_check (name : text) : bool :=
  (20 <=? String.length name) && (String.length name <=? 60).

(** [address TEXT CHECK (length(address) <= 400)]: the column is nullable and
    a CHECK whose expression is NULL passes. *)
Definition profiles_address_check (address : option text) : bool :=
  match address with
  | None => true
  | Some a => String.length a <=? 400
  end.

(** [address TEXT NOT NULL CHECK (length(address) <= 400)] *)
Definition stores_address_check (address : text) : bool :=
  String.length address <=? 400.

(** [INTEGER]: the values the column type can hold.  A value outside is
    refused when the statement's input is converted, before any row is
    looked at. *)
Definition int4_in (z : Z) : bool :=
  ((-2147483648 <=? z) && (z <=? 2147483647))%Z.

(** [CHECK (rating >= 1 AND rating <= 5)] *)
Definition rating_check (rating : Z) : bool :=
  ((1 <=? rating) && (rating <=? 5))%Z.

(** The key of [UNIQUE(user_id, store_id)]. *)
Definition rating_key (r : rating) : uuid * uuid := (r_user_id r, r_store_id r).

(** ** Row-by-row execution of a statement

    A row passes, in this order: the CHECK constraints (by constraint name),
    then the unique indexes (primary key first).  Foreign keys are checked by
    triggers that fire once the statement has touched its rows. *)

Definition profiles_row_check (others : list profile) (p : profile) : result () :=
  require (profiles_address_check (p_address p)) (check_violation "profiles_address_check");;
  require (name_check (p_name p)) (check_violation "profiles_name_check");;
  require (bool_decide (p_id p ∉ p_id <$> others)) (unique_violation "profiles_pkey");;
  require (bool_decide (p_user_id p ∉ p_user_id <$> others)) (unique_violation "profiles_user_id_key").

Definition stores_row_check (others : list store) (s : store) : result () :=
  require (stores_address_check (s_address s)) (check_violation "stores_address_check");;
  require (name_check (s_name s)) (check_violation "stores_name_check");;
  require (bool_decide (s_id s ∉ s_id <$> others)) (unique_violation "stores_pkey").

Definition ratings_row_check (others : list rating) (r : rating) : result () :=
  require (rating_check (r_rating r)) (check_violation "ratings_rating_check");;
  require (bool_decide (r_id r ∉ r_id <$> others)) (unique_violation "ratings_pkey");;
  require (bool_decide (rating_key r ∉ rating_key <$> others))
          (unique_violation "ratings_user_id_store_id_key").

(** Foreign keys. *)
Definition profiles_fk (db : DB) (p : profile) : result () :=
  require (bool_decide (p_user_id p ∈ acct_id <$> auth_users db))
          (foreign_key_violation "profiles_user_id_fkey").

Definition stores_fk (db : DB) (s : store) : result () :=
  require (bool_decide (s_owner_id s ∈ p_id <$> profiles db))
          (foreign_key_violation "stores_owner_id_fkey").

Definition ratings_fk (db : DB) (r : rating) : result () :=
  require (bool_decide (r_user_id r ∈ p_id <$> profiles db))
              (foreign_key_violation "ratings_user_id_fkey");;
  require (bool_decide (r_store_id r ∈ s_id <$> stores db))
          (foreign_key_violation "ratings_store_id_fkey").

(** [check_all f l]: the first error of [f] over [l], if any. *)
Fixpoint check_all {A} (f : A → result ()) (l : list A) : result () :=
  match l with
  | [] => Ok ()
  | x :: l' => f x;; check_all f l'
  end.

(** ** INSERT *)

Definition insert_profile (p : profile) (db : DB) : result DB :=
  profiles_row_check (profiles db) p;;
  profiles_fk db p;;
  Ok (with_profiles (profiles db ++ [p]) db).

Definition insert_store (s : store) (db : DB) : result DB :=
  stores_row_check (stores db) s;;
  stores_fk db s;;
  Ok (with_stores (stores db ++ [s]) db).

Definition insert_rating (r : rating) (db : DB) : result DB :=
  require (int4_in (r_rating r)) (numeric_value_out_of_range "integer");;
  ratings_row_check (ratings db) r;;
  ratings_fk db r;;
  Ok (with_ratings (ratings db ++ [r]) db).

(** ** UPDATE

    Rows are rewritten one at a time, in table order.  Each new row version
    is checked against every other live row: the versions already rewritten
    and the rows not yet reached. *)

Section update_rows.
Context {A : Type}.
Variable where_ : A → bool.
Variable set : A → A.
Variable row_check : list A → A → result ().

Fixpoint update_rows (done todo : list A) : result (list A) :=
  match todo with
  | [] => Ok done
  | r :: rest =>
      if where_ r then
        row_check (done ++ rest) (set r);;
        update_rows (done ++ [set r]) rest
      else update_rows (done ++ [r]) rest
  end.
End update_rows.

(** The columns a statement may assign.  Primary keys and [created_at] are
    never assigned by the application; [updated_at] is assigned by the
    trigger below. *)
Record profile_patch := {
  set_p_name : option text;
  set_p_email : option text;
  set_p_address : option (option text);
  set_p_role : option user_role
}.

Record store_patch := {
  set_s_owner_id : option uuid;
  set_s_name : option text;
  set_s_email : option text;
  set_s_address : option text
}.

Record rating_patch := {
  set_r_user_id : option uuid;
  set_r_store_id : option uuid;
  set_r_rating : option Z
}.

(** [SET ...] followed by the BEFORE UPDATE trigger
    [update_updated_at_column]: [NEW.updated_at = now()]. *)
Definition apply_profile_patch (now : timestamptz) (u : profile_patch) (p : profile) : profile :=
  {| p_id := p_id p;
     p_user_id := p_user_id p;
     p_name := default (p_name p) (set_p_name u);
     p_email := default (p_email p) (set_p_email u);
     p_address := default (p_address p) (set_p_address u);
     p_role := default (p_role p) (set_p_role u);
     p_created_at := p_created_at p;
     p_updated_at := now |}.

Definition apply_store_patch (now : timestamptz) (u : store_patch) (s : store) : store :=
  {| s_id := s_id s;
     s_owner_id := default (s_owner_id s) (set_s_owner_id u);
     s_name := default (s_name s) (set_s_name u);
     s_email := default (s_email s) (set_s_email u);
     s_address := default (s_address s) (set_s_address u);
     s_created_at := s_created_at s;
     s_updated_at := now |}.

Definition apply_rating_patch (now : timestamptz) (u : rating_patch) (r : rating) : rating :=
  {| r_id := r_id r;
     r_user_id := default (r_user_id r) (set_r_user_id u);
     r_store_id := default (r_store_id r) (set_r_store_id u);
     r_rating := default (r_rating r) (set_r_rating u);
     r_created_at := r_created_at r;
     r_updated_at := now |}.

Definition update_profiles (where_ : profile → bool) (u : profile_patch)
    (now : timestamptz) (db : DB) : result DB :=
  l ← update_rows where_ (apply_profile_patch now u) profiles_row_check [] (profiles db);
  Ok (with_profiles l db).

Definition update_stores (where_ : store → bool) (u : store_patch)
    (now : timestamptz) (db : DB) : result DB :=
  l ← update_rows where_ (apply_store_patch now u) stores_row_check [] (stores db);
  check_all (stores_fk db)
    (apply_store_patch now u <$> filter (λ s, where_ s) (stores db));;
  Ok (with_stores l db).

(** [with_check] is the row-security check a new row version must pass
    before its constraints are looked at; it is [λ _, true] for a statement
    that bypasses row security. *)
Definition update_ratings (with_check : rating → bool) (where_ : rating → bool)
    (u : rating_patch) (now : timestamptz) (db : DB) : result DB :=
  require (from_option int4_in true (set_r_rating u))
          (numeric_value_out_of_range "integer");;
  l ← update_rows where_ (apply_rating_patch now u)
        (λ others r, require (with_check r) (insufficient_privilege "ratings");;
                     ratings_row_check others r)
        [] (ratings db);
  check_all (ratings_fk db)
    (apply_rating_patch now u <$> filter (λ r, where_ r) (ratings db));;
  Ok (with_ratings l db).

(** ** DELETE, with ON DELETE CASCADE

    [stores.owner_id], [ratings.user_id] and [ratings.store_id] are all
    declared [ON DELETE CASCADE], and so is [profiles.user_id]. *)

Definition delete_ratings (where_ : rating → bool) (db : DB) : DB :=
  with_ratings (filter (λ r, ¬ where_ r) (ratings db)) db.

Definition delete_stores (where_ : store → bool) (db : DB) : DB :=
  let gone := s_id <$> filter (λ s, where_ s) (stores db) in
  with_ratings (filter (λ r, r_store_id r ∉ gone) (ratings db))
    (with_stores (filter (λ s, ¬ where_ s) (stores db)) db).

Definition delete_profiles (where_ : profile → bool) (db : DB) : DB :=
  let gone := p_id <$> filter (λ p, where_ p) (profiles db) in
  let db1 := delete_stores (λ s, bool_decide (s_owner_id s ∈ gone)) db in
  with_ratings (filter (λ r, r_user_id r ∉ gone) (ratings db1))
    (with_profiles (filter (λ p, ¬ where_ p) (profiles db1)) db1).

Definition delete_auth_users (where_ : account → bool) (db : DB) : DB :=
  let gone := acct_id <$> filter (λ a, where_ a) (auth_users db) in
  let db1 := delete_profiles (λ p, bool_decide (p_user_id p ∈ gone)) db in
  with_auth_users (filter (λ a, ¬ where_ a) (auth_users db1)) db1.

(** [DELETE FROM public.profiles WHERE id = ...] *)
Definition delete_profile (id : uuid) (db : DB) : DB :=
  delete_profiles (λ p, bool_decide (p_id p = id)) db.

(** ** The provisioning trigger *)

(** [j ->> key]: NULL when [j] is NULL, the key is absent or its value is
    JSON null; otherwise the value as text. *)
Definition arrow_text (j : option (gmap string jsonb)) (key : string) : option text :=
  m ← j;
  v ← m !! key;
  match v with
  | JNull => None
  | JString s => Some s
  | JOther t => Some t
  end.

(** [(...)::public.user_role]: NULL casts to NULL, a label of the enum to its
    value, and any other text raises. *)
Definition cast_user_role (t : option text) : result (option user_role) :=
  match t with
  | None => Ok None
  | Some s =>
      if decide (s = "admin") then Ok (Some admin)
      else if decide (s = "normal_user") then Ok (Some normal_user)
      else if decide (s = "store_owner") then Ok (Some store_owner)
      else Err (invalid_text_representation "user_role")
  end.

Definition COALESCE {A} (a : option A) (b : A) : A := default b a.

Definition default_name : text := "Default Name (Please Update)".

(** [handle_new_user()], fired AFTER INSERT ON auth.users FOR EACH ROW.
    [gen] is the value [gen_random_uuid()] yields for the new profile's id
    and [now] the transaction's clock.  The function is SECURITY DEFINER, so
    the insert is not filtered by the policies on [profiles]. *)
Definition handle_new_user (gen : uuid) (now : timestamptz) (NEW : account)
    (db : DB) : result DB :=
  let name := COALESCE (arrow_text (raw_user_meta_data NEW) "name") default_name in
  role ← cast_user_role (arrow_text (raw_user_meta_data NEW) "role");
  insert_profile
    {| p_id := gen;
       p_user_id := acct_id NEW;
       p_name := name;
       p_email := acct_email NEW;
       p_address := None;
       p_role := COALESCE role normal_user;
       p_created_at := now;
       p_updated_at := now |} db.

(** Registration at the authentication boundary: the account row is
    inserted, then the trigger runs inside the same transaction. *)
Definition insert_auth_user (gen : uuid) (now : timestamptz) (NEW : account)
    (db : DB) : result DB :=
  require (bool_decide (acct_id NEW ∉ acct_id <$> auth_users db))
          (unique_violation "users_pkey");;
  handle_new_user gen now NEW (with_auth_users (auth_users db ++ [NEW]) db).

(** A transaction commits the new state or rolls back to the old one. *)
Definition transaction (f : DB → result DB) (db : DB) : DB * option pg_error :=
  match f db with
  | Ok db' => (db', None)
  | Err e => (db, Some e)
  end.

(** ** Statements and reachable databases *)

Inductive statement :=
| INSERT_auth_users (gen : uuid) (now : timestamptz) (NEW : account)
| DELETE_auth_users (where_ : account → bool)
| INSERT_profiles (p : profile)
| UPDATE_profiles (where_ : profile → bool) (u : profile_patch) (now : timestamptz)
| DELETE_profiles (where_ : profile → bool)
| INSERT_stores (s : store)
| UPDATE_stores (where_ : store → bool) (u : store_patch) (now : timestamptz)
| DELETE_stores (where_ : store → bool)
| INSERT_ratings (r : rating)
| UPDATE_ratings (where_ : rating → bool) (u : rating_patch) (now : timestamptz)
| DELETE_ratings (where_ : rating → bool).

Definition exec (st : statement) (db : DB) : result DB :=
  match st with
  | INSERT_auth_users gen now NEW => insert_auth_user gen now NEW db
  | DELETE_auth_users w => Ok (delete_auth_users w db)
  | INSERT_profiles p => insert_profile p db
  | UPDATE_profiles w u now => update_profiles w u now db
  | DELETE_profiles w => Ok (delete_profiles w db)
  | INSERT_stores s => insert_store s db
  | UPDATE_stores w u now => update_stores w u now db
  | DELETE_stores w => Ok (delete_stores w db)
  | INSERT_ratings r => insert_rating r db
  | UPDATE_ratings w u now => update_ratings (λ _, true) w u now db
  | DELETE_ratings w => Ok (delete_ratings w db)
  end.

(** The databases that exist "at any time": those a sequence of committed
    statements builds from the empty schema. *)
Inductive reachable : DB → Prop :=
| reachable_empty : reachable empty_db
| reachable_exec st db db' :
    reachable db → exec st db = Ok db' → reachable db'.

(** ** The aggregation view [store_ratings] *)

(** The right-hand side of the outer join for one store: the ratings that
    satisfy [ON s.id = r.store_id], or a single all-NULL row when none does. *)
Definition joined_rows (s : store) (rs : list rating) : list (option rating) :=
  match filter (λ r, s_id s = r_store_id r) rs with
  | [] => [None]
  | matched => Some <$> matched
  end.

(** [FROM public.stores s LEFT JOIN public.ratings r ON s.id = r.store_id] *)
Definition left_join (ss : list store) (rs : list rating) : list (store * option rating) :=
  s ← ss; (λ o, (s, o)) <$> joined_rows s rs.

(** [GROUP BY]: one group per distinct key, holding the rows with that key. *)
Definition group_by {K V} `{EqDecision K} (rows : list (K * V)) : list (K * list V) :=
  (λ k, (k, snd <$> filter (λ kv, kv.1 = k) rows)) <$> remove_dups (fst <$> rows).

(** ** [numeric] division

    The quotient of two integers as [numeric_div] returns it: rounded, half
    away from zero, at the scale [select_div_scale] picks.  A [numeric] is
    kept in base 10000; the scale is chosen from the weights and the first
    digits of the operands in that base so that the quotient has at least
    16 significant digits. *)

Definition NBASE : Z := 10000.
Definition DEC_DIGITS : Z := 4.
Definition NUMERIC_MIN_SIG_DIGITS : Z := 16.
Definition NUMERIC_MAX_DISPLAY_SCALE : Z := 1000.

Fixpoint weight_aux (fuel : nat) (n : Z) : Z :=
  match fuel with
  | 0 => 0%Z
  | S fuel' => if (n <? NBASE)%Z then 0%Z else (1 + weight_aux fuel' (n / NBASE))%Z
  end.

(** The position of the leading base-10000 digit of [n >= 0]; 0 for 0. *)
Definition weight (n : Z) : Z := weight_aux (S (Z.to_nat (Z.log2 n))) n.

(** The leading base-10000 digit of [n >= 0]; 0 for 0. *)
Definition first_digit (n : Z) : Z := (n / NBASE ^ weight n)%Z.

(** The operands are integers, so their own display scales are 0. *)
Definition select_div_scale (var1 var2 : Z) : Z :=
  let qweight :=
    (weight (Z.abs var1) - weight (Z.abs var2)
     - (if first_digit (Z.abs var1) <=? first_digit (Z.abs var2) then 1 else 0))%Z in
  Z.min NUMERIC_MAX_DISPLAY_SCALE
        (Z.max 0 (NUMERIC_MIN_SIG_DIGITS - qweight * DEC_DIGITS)).

(** [var1 / var2] for [var2 <> 0]. *)
Definition numeric_div (var1 var2 : Z) : Q :=
  let scale := (10 ^ select_div_scale var1 var2)%Z in
  let magnitude := ((2 * (Z.abs var1 * scale) + Z.abs var2) / (2 * Z.abs var2))%Z in
  (Z.sgn var1 * Z.sgn var2 * magnitude # Z.to_pos scale)%Q.

(** Aggregates skip NULL inputs.  [AVG] over no input is NULL; over integers
    it keeps the sum and the count and divides them as [numeric]s. *)
Definition non_null {A} (xs : list (option A)) : list A := omap id xs.

Definition SUM (xs : list Z) : Z := foldr Z.add 0%Z xs.

Definition AVG (xs : list (option Z)) : option Q :=
  match non_null xs with
  | [] => None
  | vs => Some (numeric_div (SUM vs) (Z.of_nat (length vs)))
  end.

Definition COUNT {A} (xs : list (option A)) : Z := Z.of_nat (length (non_null xs)).

(** A column of the nullable side of an outer join. *)
Definition column {A B} (f : A → B) (rows : list (option A)) : list (option B) :=
  (λ o : option A, f <$> o) <$> rows.

(** A row of the view: [s.*], [average_rating], [total_ratings]. *)
Record store_rating := {
  sr_store : store;
  average_rating : Q;
  total_ratings : Z
}.

(** [SELECT s.*, COALESCE(AVG(r.rating), 0), COUNT(r.id) ...
     GROUP BY s.id, s.owner_id, s.name, s.email, s.address, s.created_at, s.updated_at] *)
Definition store_ratings (db : DB) : list store_rating :=
  (λ g : store * list (option rating),
     {| sr_store := g.1;
        average_rating := COALESCE (AVG (column r_rating g.2)) 0%Q;
        total_ratings := COUNT (column r_id g.2) |})
  <$> group_by (left_join (stores db) (ratings db)).

(** The summary as the spec words it: the Rating rows of a store, the
    arithmetic mean of their scores (0 when there are none), their count. *)
Definition ratings_of (sid : uuid) (db : DB) : list rating :=
  filter (λ r, r_store_id r = sid) (ratings db).

Definition mean (scores : list Z) : Q :=
  match scores with
  | [] => 0%Q
  | _ => (SUM scores # Pos.of_nat (length scores))%Q
  end.

Definition averageRating (sid : uuid) (db : DB) : Q :=
  mean (r_rating <$> ratings_of sid db).

Definition totalRatings (sid : uuid) (db : DB) : Z :=
  Z.of_nat (length (ratings_of sid db)).

(** ** Row-level security

    All three tables have row security enabled.  Before a statement of a
    caller subject to it runs, the rewriter attaches to the table the
    expressions of the policies that apply.  An expression with a
    sub-SELECT is itself a query: its table is expanded in turn, with the
    tables under expansion kept on a stack.  A table met again while it is
    on the stack is an error, not a loop.  Only a statement whose policies
    could be expanded is run, its rows filtered by the expanded
    expressions. *)

Module Rewriter.

Inductive relation := Profiles | Stores | Ratings.
Inductive command := SELECT | INSERT | UPDATE | DELETE.

#[global] Instance relation_eq_dec : EqDecision relation.
Proof. solve_decision. Defined.
#[global] Instance command_eq_dec : EqDecision command.
Proof. solve_decision. Defined.

Definition relname (rel : relation) : string :=
  match rel with
  | Profiles => "profiles"
  | Stores => "stores"
  | Ratings => "ratings"
  end.

(** The five expressions the policies of the migration are written with. *)
Inductive policy_expr :=
| always
  (** [true] *)
| uid_is_user_id
  (** [auth.uid() = user_id] *)
| caller_has_admin_profile
  (** [EXISTS (SELECT 1 FROM public.profiles
               WHERE user_id = auth.uid() AND role = 'admin')] *)
| caller_has_owner_profile
  (** [EXISTS (SELECT 1 FROM public.profiles
               WHERE user_id = auth.uid() AND id = stores.owner_id)] *)
| uid_is_rater
  (** [auth.uid() = (SELECT user_id FROM public.profiles
                     WHERE id = ratings.user_id)] *).

(** The table the sub-SELECT of an expression reads. *)
Definition sublink (e : policy_expr) : option relation :=
  match e with
  | always | uid_is_user_id => None
  | caller_has_admin_profile | caller_has_owner_profile | uid_is_rater => Some Profiles
  end.

(** A policy of the migration: its table, its command and its expression,
    which is the WITH CHECK of an INSERT policy and the USING of any other.
    No policy of the migration has both, so the USING of an UPDATE policy
    also checks the new row versions.  All are permissive. *)
Record policy := {
  polname : string;
  polrelid : relation;
  polcmd : command;
  polexpr : policy_expr
}.

Definition pg_policy : list policy := [
  {| polname := "Users can view their own profile";
     polrelid := Profiles; polcmd := SELECT; polexpr := uid_is_user_id |};
  {| polname := "Users can update their own profile";
     polrelid := Profiles; polcmd := UPDATE; polexpr := uid_is_user_id |};
  {| polname := "Admins can view all profiles";
     polrelid := Profiles; polcmd := SELECT; polexpr := caller_has_admin_profile |};
  {| polname := "Admins can insert profiles";
     polrelid := Profiles; polcmd := INSERT; polexpr := caller_has_admin_profile |};
  {| polname := "Admins can update all profiles";
     polrelid := Profiles; polcmd := UPDATE; polexpr := caller_has_admin_profile |};
  {| polname := "Everyone can view stores";
     polrelid := Stores; polcmd := SELECT; polexpr := always |};
  {| polname := "Store owners can update their own stores";
     polrelid := Stores; polcmd := UPDATE; polexpr := caller_has_owner_profile |};
  {| polname := "Admins can insert stores";
     polrelid := Stores; polcmd := INSERT; polexpr := caller_has_admin_profile |};
  {| polname := "Admins can update all stores";
     polrelid := Stores; polcmd := UPDATE; polexpr := caller_has_admin_profile |};
  {| polname := "Users can view all ratings";
     polrelid := Ratings; polcmd := SELECT; polexpr := always |};
  {| polname := "Users can insert their own ratings";
     polrelid := Ratings; polcmd := INSERT; polexpr := uid_is_rater |};
  {| polname := "Users can update their own ratings";
     polrelid := Ratings; polcmd := UPDATE; polexpr := uid_is_rater |};
  {| polname := "Users can delete their own ratings";
     polrelid := Ratings; polcmd := DELETE; polexpr := uid_is_rater |}
].

Definition sublinks (p : policy) : list relation := option_list (sublink (polexpr p)).

(** The policies attached to [rel] for [cmd]: those declared for [cmd],
    and the SELECT policies as well when the statement needs the SELECT
    privilege on the table, that is when it reads one of its columns (in a
    WHERE or a RETURNING clause, or on the right of a SET). *)
Definition get_row_security_policies (rel : relation) (cmd : command) (reads : bool)
    : list policy :=
  filter (λ p, polrelid p = rel ∧ (polcmd p = cmd ∨ (polcmd p = SELECT ∧ reads = true)))
         pg_policy.

(** An expression as attached to a table, with the security quals of the
    table its sub-SELECT reads (the permissive policies of one command are
    OR-ed, the groups of different commands AND-ed). *)
#[warnings="-register-all"] Inductive security_qual :=
| SecurityQual (e : policy_expr) (subselect : list (list security_qual)).

(** What expansion leaves on the statement's table: [securityQuals] filter
    the rows the statement sees, [withCheckOptions] are checked on the rows
    it writes.  A caller exempt from row security gets neither. *)
Record expanded := {
  securityQuals : list (list security_qual);
  withCheckOptions : list (list security_qual)
}.

Definition attach (cmd : command) (reads : bool)
    (quals : list (policy * list (list security_qual))) : expanded :=
  let group c :=
    (λ q : policy * list (list security_qual), SecurityQual (polexpr q.1) q.2)
    <$> filter (λ q, polcmd q.1 = c) quals in
  let selects := if reads && negb (bool_decide (cmd = SELECT)) then [group SELECT] else [] in
  {| securityQuals :=
       if decide (cmd = INSERT) then [] else group cmd :: selects;
     withCheckOptions :=
       if decide (cmd ∈ [INSERT; UPDATE]) then group cmd :: selects else [] |}.

(** [fireRIRrules]: expand the policies of [rel] for a caller whose role is
    subject to row security ([row_security = true]; the table owner and
    roles with BYPASSRLS are not).  [None] is "out of fuel". *)
Fixpoint fireRIRrules (fuel : nat) (row_security : bool)
    (activeRIRs : list relation) (rel : relation) (cmd : command) (reads : bool)
    : option (result expanded) :=
  match fuel with
  | 0 => None
  | S fuel' =>
      if negb row_security
      then Some (Ok {| securityQuals := []; withCheckOptions := [] |})
      else
      let policies := get_row_security_policies rel cmd reads in
      match policies ≫= sublinks with
      | [] => Some (Ok (attach cmd reads ((λ p, (p, [])) <$> policies)))
      | _ =>
          if decide (rel ∈ activeRIRs)
          then Some (Err (invalid_object_definition (relname rel)))
          else
            match
            (fix walk (l : list policy)
               : option (result (list (policy * list (list security_qual)))) :=
               match l with
               | [] => Some (Ok [])
               | p :: l' =>
                   let sub :=
                     match sublink (polexpr p) with
                     | None => Some (Ok [])
                     | Some sub =>
                         match fireRIRrules fuel' row_security (activeRIRs ++ [rel])
                                            sub SELECT true with
                         | Some (Ok x) => Some (Ok (securityQuals x))
                         | Some (Err e) => Some (Err e)
                         | None => None
                         end
                     end in
                   match sub with
                   | Some (Ok s) =>
                       match walk l' with
                       | Some (Ok quals) => Some (Ok ((p, s) :: quals))
                       | other => other
                       end
                   | Some (Err e) => Some (Err e)
                   | None => None
                   end
               end) policies
            with
            | Some (Ok quals) => Some (Ok (attach cmd reads quals))
            | Some (Err e) => Some (Err e)
            | None => None
            end
      end
  end.

(** A statement on one table; [reads] as for [get_row_security_policies]. *)
Definition rewrite (row_security : bool) (rel : relation) (cmd : command) (reads : bool)
    : option (result expanded) :=
  fireRIRrules 4 row_security [] rel cmd reads.

End Rewriter.

(** ** What the expanded expressions admit

    [uid] is [auth.uid()]: the account of the caller, NULL for an anonymous
    one.  A comparison with NULL is not true, so it admits no row.  A
    sub-SELECT sees the rows of [profiles] its own security quals admit. *)

Inductive row :=
| profile_row (p : profile)
| store_row (s : store)
| rating_row (r : rating).

Section holds.
Variable uid : option uuid.
Variable db : DB.

Fixpoint holds (q : Rewriter.security_qual) (r : row) : bool :=
  match q with
  | Rewriter.SecurityQual e subselect =>
      let visible :=
        List.filter (λ p, forallb (existsb (λ q', holds q' (profile_row p))) subselect)
                    (profiles db) in
      match e, r with
      | Rewriter.always, _ => true
      | Rewriter.uid_is_user_id, profile_row p => bool_decide (uid = Some (p_user_id p))
      | Rewriter.caller_has_admin_profile, _ =>
          existsb (λ p, bool_decide (uid = Some (p_user_id p) ∧ p_role p = admin)) visible
      | Rewriter.caller_has_owner_profile, store_row s =>
          existsb (λ p, bool_decide (uid = Some (p_user_id p) ∧ p_id p = s_owner_id s))
                  visible
      | Rewriter.uid_is_rater, rating_row r =>
          (* the scalar sub-SELECT is NULL on no row; [id] being the primary
             key of [profiles], it finds at most one *)
          match List.filter (λ p, bool_decide (p_id p = r_user_id r)) visible with
          | [p] => bool_decide (uid = Some (p_user_id p))
          | _ => false
          end
      | _, _ => false
      end
  end.

(** Every group has a policy that admits the row. *)
Definition admits (groups : list (list Rewriter.security_qual)) (r : row) : bool :=
  forallb (existsb (λ q, holds q r)) groups.

End holds.

(** ** The data API, as the browser client calls it

    The client module ([@/integrations/supabase/client]) is not part of the
    sources: whether the key it is created with makes the caller subject to
    row security is the parameter [row_security] of every call.  A call is
    one statement: its policies are expanded, then it runs. *)

Definition expand (row_security : bool) (rel : Rewriter.relation) (cmd : Rewriter.command)
    (reads : bool) : result Rewriter.expanded :=
  from_option id (Err statement_too_complex) (Rewriter.rewrite row_security rel cmd reads).

Definition new_rating (gen : uuid) (now : timestamptz)
    (user_id store_id : uuid) (score : Z) : rating :=
  {| r_id := gen; r_user_id := user_id; r_store_id := store_id; r_rating := score;
     r_created_at := now; r_updated_at := now |}.

(** [from('ratings').insert({user_id, store_id, rating})]: the new row is
    checked against the WITH CHECK of the INSERT policy, then against the
    table's constraints. *)
Definition api_insert_rating (row_security : bool) (uid : option uuid)
    (gen : uuid) (now : timestamptz)
    (user_id store_id : uuid) (score : Z) (db : DB) : result DB :=
  x ← expand row_security Rewriter.Ratings Rewriter.INSERT false;
  let r := new_rating gen now user_id store_id score in
  require (int4_in score) (numeric_value_out_of_range "integer");;
  require (admits uid db (Rewriter.withCheckOptions x) (rating_row r))
          (insufficient_privilege "ratings");;
  insert_rating r db.

(** [.update({ rating: newRating })] *)
Definition set_rating_to (score : Z) : rating_patch :=
  {| set_r_user_id := None; set_r_store_id := None; set_r_rating := Some score |}.

(** [from('ratings').update({rating}).eq('id', id)]: rows the security quals
    do not admit are skipped without an error. *)
Definition api_update_rating (row_security : bool) (uid : option uuid)
    (now : timestamptz) (id : uuid) (score : Z) (db : DB) : result DB :=
  x ← expand row_security Rewriter.Ratings Rewriter.UPDATE true;
  update_ratings
    (λ r, admits uid db (Rewriter.withCheckOptions x) (rating_row r))
    (λ r, bool_decide (r_id r = id)
          && admits uid db (Rewriter.securityQuals x) (rating_row r))
    (set_rating_to score)
    now db.

(** [from('ratings').select('*').eq('user_id', id)] *)
Definition api_ratings_of_user (row_security : bool) (uid : option uuid)
    (user_id : uuid) (db : DB) : result (list rating) :=
  x ← expand row_security Rewriter.Ratings Rewriter.SELECT true;
  Ok (filter (λ r, admits uid db (Rewriter.securityQuals x) (rating_row r)
                   ∧ r_user_id r = user_id)
             (ratings db)).

(** [from('stores').select('id').eq('owner_id', id)] *)
Definition api_stores_of_owner (row_security : bool) (uid : option uuid)
    (owner_id : uuid) (db : DB) : result (list store) :=
  x ← expand row_security Rewriter.Stores Rewriter.SELECT true;
  Ok (filter (λ s, admits uid db (Rewriter.securityQuals x) (store_row s)
                   ∧ s_owner_id s = owner_id)
             (stores db)).

(** [from('profiles').select(...)], with the filter of the call. *)
Definition api_select_profiles (row_security : bool) (uid : option uuid)
    (where_ : profile → bool) (db : DB) : result (list profile) :=
  x ← expand row_security Rewriter.Profiles Rewriter.SELECT true;
  Ok (filter (λ p, admits uid db (Rewriter.securityQuals x) (profile_row p) ∧ where_ p)
             (profiles db)).

(** [from(table).select('id', { count: 'exact' })] *)
Definition api_count (row_security : bool) (uid : option uuid)
    (rel : Rewriter.relation) (db : DB) : result Z :=
  x ← expand row_security rel Rewriter.SELECT true;
  let seen {A} (f : A → row) (l : list A) :=
    Z.of_nat (length (filter (λ a, admits uid db (Rewriter.securityQuals x) (f a)) l)) in
  Ok match rel with
     | Rewriter.Profiles => seen profile_row (profiles db)
     | Rewriter.Stores => seen store_row (stores db)
     | Rewriter.Ratings => seen rating_row (ratings db)
     end.

(** [from('stores').insert({name, email, address, owner_id})] *)
Definition api_insert_store (row_security : bool) (uid : option uuid)
    (gen : uuid) (now : timestamptz)
    (name email address : text) (owner_id : uuid) (db : DB) : result DB :=
  x ← expand row_security Rewriter.Stores Rewriter.INSERT false;
  let s := {| s_id := gen; s_owner_id := owner_id; s_name := name; s_email := email;
              s_address := address; s_created_at := now; s_updated_at := now |} in
  require (admits uid db (Rewriter.withCheckOptions x) (store_row s))
          (insufficient_privilege "stores");;
  insert_store s db.

(** [from('store_ratings').select('*').order('name')].  The view is a
    regular one: its tables are read with the rights of its owner, who owns
    them too, so no policy is attached (and the SELECT policies of [stores]
    and [ratings] admit every row in any case).  The order on text is taken
    to be [String.leb]. *)
Definition api_store_ratings (db : DB) : list store_rating :=
  merge_sort (λ a b, String.leb (s_name (sr_store a)) (s_name (sr_store b)))
             (store_ratings db).

(** ** Enum labels and view rows *)

(** The text of a [user_role] value, as stored in the metadata by the admin
    form and as returned to the client. *)
Definition role_label (role : user_role) : text :=
  match role with
  | admin => "admin"
  | normal_user => "normal_user"
  | store_owner => "store_owner"
  end.

(** The row of [store_ratings] for a store whose joined ratings are [rs]. *)
Definition summary_row (S : store) (rs : list rating) : store_rating :=
  {| sr_store := S;
     average_rating := COALESCE (AVG (column r_rating (joined_rows S rs))) 0%Q;
     total_ratings := COUNT (column r_id (joined_rows S rs)) |}.

(** ** AdminDashboard: the form schemas

    What the zod schemas of the admin forms require of names and addresses
    before anything is sent to the database. *)

(** [z.string().min(20, ...).max(60, ...)] *)
Definition storeSchema_name (name : text) : bool :=
  (20 <=? String.length name) && (String.length name <=? 60).

(** [z.string().min(1, 'Address is required').max(400, ...)] *)
Definition storeSchema_address (address : text) : bool :=
  (1 <=? String.length address) && (String.length address <=? 400).

(** [z.string().max(400, ...).optional()] *)
Definition userSchema_address (address : option text) : bool :=
  match address with
  | None => true
  | Some a => String.length a <=? 400
  end.

(** ** UserDashboard.tsx *)

Inductive toast :=
| Toast (title description : string) (destructive : bool).

Record UserDashboard := {
  ud_profile : option profile;
  ud_stores : list store_rating;
  userRatings : list rating;
  selectedStore : option store_rating;
  newRating : Z;
  ratingDialogOpen : bool;
  ud_toasts : list toast
}.

Definition ud_toast (t : toast) (c : UserDashboard) : UserDashboard :=
  {| ud_profile := ud_profile c; ud_stores := ud_stores c;
     userRatings := userRatings c; selectedStore := selectedStore c;
     newRating := newRating c; ratingDialogOpen := ratingDialogOpen c;
     ud_toasts := ud_toasts c ++ [t] |}.

Definition setRatingDialogOpen (b : bool) (c : UserDashboard) : UserDashboard :=
  {| ud_profile := ud_profile c; ud_stores := ud_stores c;
     userRatings := userRatings c; selectedStore := selectedStore c;
     newRating := newRating c; ratingDialogOpen := b;
     ud_toasts := ud_toasts c |}.

Definition setStores (l : list store_rating) (c : UserDashboard) : UserDashboard :=
  {| ud_profile := ud_profile c; ud_stores := l;
     userRatings := userRatings c; selectedStore := selectedStore c;
     newRating := newRating c; ratingDialogOpen := ratingDialogOpen c;
     ud_toasts := ud_toasts c |}.

Definition setUserRatings (l : list rating) (c : UserDashboard) : UserDashboard :=
  {| ud_profile := ud_profile c; ud_stores := ud_stores c;
     userRatings := l; selectedStore := selectedStore c;
     newRating := newRating c; ratingDialogOpen := ratingDialogOpen c;
     ud_toasts := ud_toasts c |}.

(** [fetchStores] *)
Definition fetchStores (db : DB) (c : UserDashboard) : UserDashboard :=
  setStores (api_store_ratings db) c.

(** [fetchUserRatings] *)
Definition fetchUserRatings (row_security : bool) (uid : option uuid) (db : DB)
    (c : UserDashboard) : UserDashboard :=
  match ud_profile c with
  | None => c
  | Some prof =>
      match api_ratings_of_user row_security uid (p_id prof) db with
      | Err _ => ud_toast (Toast "Error" "Failed to fetch ratings" true) c
      | Ok data => setUserRatings data c
      end
  end.

(** [fetchData]: [fetchStores] and [fetchUserRatings], once a profile is
    loaded. *)
Definition fetchData (row_security : bool) (uid : option uuid) (db : DB)
    (c : UserDashboard) : UserDashboard :=
  match ud_profile c with
  | None => c
  | Some _ => fetchUserRatings row_security uid db (fetchStores db c)
  end.

(** [openRatingDialog(store)] *)
Definition openRatingDialog (st : store_rating) (c : UserDashboard) : UserDashboard :=
  let existingRating :=
    snd <$> list_find (λ r, r_store_id r = s_id (sr_store st)) (userRatings c) in
  {| ud_profile := ud_profile c; ud_stores := ud_stores c;
     userRatings := userRatings c; selectedStore := Some st;
     newRating := from_option r_rating 0%Z existingRating;
     ratingDialogOpen := true;
     ud_toasts := ud_toasts c |}.

(** The star widget: [onRatingChange(star)] with [star] in 1..5. *)
Definition setNewRating (n : Z) (c : UserDashboard) : UserDashboard :=
  {| ud_profile := ud_profile c; ud_stores := ud_stores c;
     userRatings := userRatings c; selectedStore := selectedStore c;
     newRating := n; ratingDialogOpen := ratingDialogOpen c;
     ud_toasts := ud_toasts c |}.

(** [handleSubmitRating]: the update-or-insert decision is taken from the
    ratings the dashboard has fetched, not from the table.  The [fetchData()]
    that follows a success is taken to have completed before the next
    event. *)
Definition handleSubmitRating (row_security : bool) (uid : option uuid)
    (gen : uuid) (now : timestamptz)
    (c : UserDashboard) (db : DB) : UserDashboard * DB :=
  match selectedStore c, ud_profile c with
  | Some st, Some prof =>
      if decide (newRating c = 0%Z) then (c, db) else
      let existingRating :=
        snd <$> list_find (λ r, r_store_id r = s_id (sr_store st)) (userRatings c) in
      match existingRating with
      | Some existing =>
          match api_update_rating row_security uid now (r_id existing) (newRating c) db with
          | Err _ =>
              (ud_toast (Toast "Error" "Failed to update rating" true) c, db)
          | Ok db' =>
              (fetchData row_security uid db'
                 (setRatingDialogOpen false
                    (ud_toast (Toast "Success" "Rating updated successfully" false) c)),
               db')
          end
      | None =>
          match api_insert_rating row_security uid gen now (p_id prof) (s_id (sr_store st))
                                  (newRating c) db with
          | Err _ =>
              (ud_toast (Toast "Error" "Failed to submit rating" true) c, db)
          | Ok db' =>
              (fetchData row_security uid db'
                 (setRatingDialogOpen false
                    (ud_toast (Toast "Success" "Rating submitted successfully" false) c)),
               db')
          end
      end
  | _, _ => (c, db)
  end.

(** One use of the rating dialog: open it on a store, pick [score] stars,
    submit. *)
Definition rate_store (row_security : bool) (uid : option uuid)
    (gen : uuid) (now : timestamptz)
    (st : store_rating) (score : Z) (s : UserDashboard * DB) : UserDashboard * DB :=
  handleSubmitRating row_security uid gen now
    (setNewRating score (openRatingDialog st s.1)) s.2.

(** [getUserRatingForStore(storeId)]:
    [userRatings.find(r => r.store_id === storeId)?.rating || 0] *)
Definition getUserRatingForStore (c : UserDashboard) (storeId : uuid) : Z :=
  from_option r_rating 0%Z
    (snd <$> list_find (λ r, r_store_id r = storeId) (userRatings c)).

(** ** StoreOwnerDashboard *)

(** [RatingWithUser]: [id, rating, created_at, profiles:user_id (name, email)].
    The embedded profile is null when the rating's [user_id] matches no
    profile the caller can see. *)
Record RatingWithUser := {
  rw_id : uuid;
  rw_rating : Z;
  rw_created_at : timestamptz;
  rw_profiles : option (text * text)
}.

Record StoreOwnerDashboard := {
  so_store : option store_rating;
  so_ratings : list RatingWithUser;
  so_toasts : list toast
}.

Definition so_toast (t : toast) (c : StoreOwnerDashboard) : StoreOwnerDashboard :=
  {| so_store := so_store c; so_ratings := so_ratings c; so_toasts := so_toasts c ++ [t] |}.

Definition setRatings (l : list RatingWithUser) (c : StoreOwnerDashboard)
    : StoreOwnerDashboard :=
  {| so_store := so_store c; so_ratings := l; so_toasts := so_toasts c |}.

(** [.order('created_at', { ascending: false })] *)
Definition newest_first (a b : rating) : Prop := (r_created_at b ≤ r_created_at a)%Z.

#[global] Instance newest_first_dec a b : Decision (newest_first a b).
Proof. unfold newest_first. apply _. Defined.

(** The query of [fetchRatings] for one store, newest first: one statement
    that reads [ratings] and, embedded in each row, [profiles]. *)
Definition listRatingsForStore (row_security : bool) (uid : option uuid)
    (store_id : uuid) (db : DB) : result (list RatingWithUser) :=
  x ← expand row_security Rewriter.Ratings Rewriter.SELECT true;
  y ← expand row_security Rewriter.Profiles Rewriter.SELECT true;
  Ok ((λ r,
         {| rw_id := r_id r;
            rw_rating := r_rating r;
            rw_created_at := r_created_at r;
            rw_profiles :=
              (λ p, (p_name p, p_email p)) <$>
                head (filter (λ p, admits uid db (Rewriter.securityQuals y) (profile_row p)
                                   ∧ p_id p = r_user_id r)
                             (profiles db)) |})
      <$> merge_sort newest_first
            (filter (λ r, admits uid db (Rewriter.securityQuals x) (rating_row r)
                          ∧ r_store_id r = store_id)
                    (ratings db))).

(** [fetchStore]: [from('store_ratings').select('*').eq('owner_id', id).single()].
    [.single()] fails with code PGRST116 when the rows are not exactly one,
    and for that code no toast is shown and the store is left as it was. *)
Definition fetchStore (prof : option profile) (c : StoreOwnerDashboard) (db : DB)
    : StoreOwnerDashboard :=
  match prof with
  | None => c
  | Some p =>
      match filter (λ row, s_owner_id (sr_store row) = p_id p) (store_ratings db) with
      | [data] =>
          {| so_store := Some data; so_ratings := so_ratings c; so_toasts := so_toasts c |}
      | _ => c
      end
  end.

(** [fetchRatings]: [.single()] yields the store only when exactly one row
    matches, and its error is not looked at; with no store nothing is
    done. *)
Definition fetchRatings (row_security : bool) (uid : option uuid) (prof : option profile)
    (c : StoreOwnerDashboard) (db : DB) : StoreOwnerDashboard :=
  match prof with
  | None => c
  | Some p =>
      match api_stores_of_owner row_security uid (p_id p) db with
      | Ok [storeData] =>
          match listRatingsForStore row_security uid (s_id storeData) db with
          | Err _ => so_toast (Toast "Error" "Failed to fetch ratings" true) c
          | Ok data => setRatings data c
          end
      | _ => c
      end
  end.

(** [fetchData] of the store owner's dashboard: [fetchStore] and
    [fetchRatings]. *)
Definition so_fetchData (row_security : bool) (uid : option uuid) (prof : option profile)
    (c : StoreOwnerDashboard) (db : DB) : StoreOwnerDashboard :=
  match prof with
  | None => c
  | Some _ => fetchRatings row_security uid prof (fetchStore prof c db) db
  end.

(** ** AdminDashboard *)

Record UserForm := {
  uf_name : text;
  uf_email : text;
  uf_address : text;
  uf_password : text;
  uf_role : user_role
}.

Record StoreForm := {
  sf_name : text;
  sf_email : text;
  sf_address : text;
  sf_ownerEmail : text
}.

Definition empty_userForm : UserForm :=
  {| uf_name := ""; uf_email := ""; uf_address := ""; uf_password := "";
     uf_role := normal_user |}.

Definition empty_storeForm : StoreForm :=
  {| sf_name := ""; sf_email := ""; sf_address := ""; sf_ownerEmail := "" |}.

Record DashboardStats := {
  totalUsers : Z;
  totalStores : Z;
  totalRatings_stat : Z
}.

Record AdminDashboard := {
  ad_stats : DashboardStats;
  ad_users : list profile;
  ad_stores : list store_rating;
  ad_userForm : UserForm;
  ad_storeForm : StoreForm;
  userDialogOpen : bool;
  storeDialogOpen : bool;
  ad_errors : gmap string string;
  ad_toasts : list toast
}.

(** [/[A-Z]/] *)
Definition has_uppercase (s : text) : bool :=
  existsb (λ c, (65 <=? Ascii.nat_of_ascii c) && (Ascii.nat_of_ascii c <=? 90))
          (String.list_ascii_of_string s).

(** The character class of the second password pattern, by character code:
    the punctuation ! @ # $ % ^ & * ( ) , . ? : { } | < > and the double
    quote. *)
Definition special_characters : list nat :=
  [33; 64; 35; 36; 37; 94; 38; 42; 40; 41; 44; 46; 63; 34; 58; 123; 125; 124; 60; 62].

Definition has_special (s : text) : bool :=
  existsb (λ c, bool_decide (Ascii.nat_of_ascii c ∈ special_characters))
          (String.list_ascii_of_string s).

(** A zod issue: the field it is about and its message. *)
Definition issue : Type := string * string.

(** [when c field message]: the issue raised when the check [c] fails. *)
Definition unless (c : bool) (field message : string) : list issue :=
  if c then [] else [(field, message)].

(** [fieldErrors[err.path[0]] = err.message] for each issue in turn: a later
    issue on a field replaces an earlier one. *)
Definition fieldErrors (issues : list issue) : gmap string string :=
  foldl (λ m i, <[i.1 := i.2]> m) ∅ issues.

Section AdminDashboard.

(** [z.string().email(...)]: the address syntax zod accepts. *)
Variable is_email : text → bool.
(** [error.message] of a failed call, as the client library renders it. *)
Variable error_message : pg_error → string.

(** The issues [userSchema.parse(userForm)] collects, in the order of the
    schema's fields and, within a field, of its checks. *)
Definition userSchema (f : UserForm) : list issue :=
  unless (20 <=? String.length (uf_name f)) "name" "Name must be at least 20 characters"
  ++ unless (String.length (uf_name f) <=? 60) "name" "Name must be at most 60 characters"
  ++ unless (is_email (uf_email f)) "email" "Invalid email address"
  ++ unless (String.length (uf_address f) <=? 400) "address"
       "Address must be at most 400 characters"
  ++ unless (8 <=? String.length (uf_password f)) "password"
       "Password must be at least 8 characters"
  ++ unless (String.length (uf_password f) <=? 16) "password"
       "Password must be at most 16 characters"
  ++ unless (has_uppercase (uf_password f)) "password"
       "Password must contain at least one uppercase letter"
  ++ unless (has_special (uf_password f)) "password"
       "Password must contain at least one special character".

Definition storeSchema (f : StoreForm) : list issue :=
  unless (20 <=? String.length (sf_name f)) "name" "Name must be at least 20 characters"
  ++ unless (String.length (sf_name f) <=? 60) "name" "Name must be at most 60 characters"
  ++ unless (is_email (sf_email f)) "email" "Invalid email address"
  ++ unless (1 <=? String.length (sf_address f)) "address" "Address is required"
  ++ unless (String.length (sf_address f) <=? 400) "address"
       "Address must be at most 400 characters"
  ++ unless (is_email (sf_ownerEmail f)) "ownerEmail" "Invalid owner email address".

Definition setErrors (e : gmap string string) (c : AdminDashboard) : AdminDashboard :=
  {| ad_stats := ad_stats c; ad_users := ad_users c; ad_stores := ad_stores c;
     ad_userForm := ad_userForm c; ad_storeForm := ad_storeForm c;
     userDialogOpen := userDialogOpen c; storeDialogOpen := storeDialogOpen c;
     ad_errors := e; ad_toasts := ad_toasts c |}.

Definition ad_toast (t : toast) (c : AdminDashboard) : AdminDashboard :=
  {| ad_stats := ad_stats c; ad_users := ad_users c; ad_stores := ad_stores c;
     ad_userForm := ad_userForm c; ad_storeForm := ad_storeForm c;
     userDialogOpen := userDialogOpen c; storeDialogOpen := storeDialogOpen c;
     ad_errors := ad_errors c; ad_toasts := ad_toasts c ++ [t] |}.

(** [validateUserForm] and [validateStoreForm]: the verdict and the
    dashboard with its [errors] set. *)
Definition validateUserForm (c : AdminDashboard) : bool * AdminDashboard :=
  match userSchema (ad_userForm c) with
  | [] => (true, setErrors ∅ c)
  | issues => (false, setErrors (fieldErrors issues) c)
  end.

Definition validateStoreForm (c : AdminDashboard) : bool * AdminDashboard :=
  match storeSchema (ad_storeForm c) with
  | [] => (true, setErrors ∅ c)
  | issues => (false, setErrors (fieldErrors issues) c)
  end.

(** [.order('name')] on profiles; the order on text is taken to be
    [String.leb]. *)
Definition by_name (a b : profile) : Prop := String.leb (p_name a) (p_name b).

#[global] Instance by_name_dec a b : Decision (by_name a b).
Proof. unfold by_name. apply _. Defined.

Definition setUsers (l : list profile) (c : AdminDashboard) : AdminDashboard :=
  {| ad_stats := ad_stats c; ad_users := l; ad_stores := ad_stores c;
     ad_userForm := ad_userForm c; ad_storeForm := ad_storeForm c;
     userDialogOpen := userDialogOpen c; storeDialogOpen := storeDialogOpen c;
     ad_errors := ad_errors c; ad_toasts := ad_toasts c |}.

Definition setStats (s : DashboardStats) (c : AdminDashboard) : AdminDashboard :=
  {| ad_stats := s; ad_users := ad_users c; ad_stores := ad_stores c;
     ad_userForm := ad_userForm c; ad_storeForm := ad_storeForm c;
     userDialogOpen := userDialogOpen c; storeDialogOpen := storeDialogOpen c;
     ad_errors := ad_errors c; ad_toasts := ad_toasts c |}.

Definition ad_setStores (l : list store_rating) (c : AdminDashboard) : AdminDashboard :=
  {| ad_stats := ad_stats c; ad_users := ad_users c; ad_stores := l;
     ad_userForm := ad_userForm c; ad_storeForm := ad_storeForm c;
     userDialogOpen := userDialogOpen c; storeDialogOpen := storeDialogOpen c;
     ad_errors := ad_errors c; ad_toasts := ad_toasts c |}.

(** [result.count || 0]: the count of a failed request is null. *)
Definition count_or_0 (r : result Z) : Z :=
  match r with Ok n => n | Err _ => 0%Z end.

(** [fetchStats]: the three counts; no error is looked at. *)
Definition fetchStats (row_security : bool) (uid : option uuid) (db : DB)
    (c : AdminDashboard) : AdminDashboard :=
  setStats
    {| totalUsers := count_or_0 (api_count row_security uid Rewriter.Profiles db);
       totalStores := count_or_0 (api_count row_security uid Rewriter.Stores db);
       totalRatings_stat := count_or_0 (api_count row_security uid Rewriter.Ratings db) |}
    c.

(** [fetchUsers]: [from('profiles').select('*').order('name')] *)
Definition fetchUsers (row_security : bool) (uid : option uuid) (db : DB)
    (c : AdminDashboard) : AdminDashboard :=
  match api_select_profiles row_security uid (λ _, true) db with
  | Err _ => ad_toast (Toast "Error" "Failed to fetch users" true) c
  | Ok data => setUsers (merge_sort by_name data) c
  end.

(** [fetchStores] of the admin dashboard *)
Definition ad_fetchStores (db : DB) (c : AdminDashboard) : AdminDashboard :=
  ad_setStores (api_store_ratings db) c.

(** [fetchData] of the admin dashboard: [fetchStats], [fetchUsers] and
    [fetchStores]. *)
Definition ad_fetchData (row_security : bool) (uid : option uuid) (db : DB)
    (c : AdminDashboard) : AdminDashboard :=
  ad_fetchStores db (fetchUsers row_security uid db (fetchStats row_security uid db c)).

(** [handleCreateStore]: validate, find the owner's profile by email with
    [.single()], insert the store. *)
Definition handleCreateStore (row_security : bool) (uid : option uuid)
    (gen : uuid) (now : timestamptz)
    (c : AdminDashboard) (db : DB) : AdminDashboard * DB :=
  let (valid, c1) := validateStoreForm c in
  if negb valid then (c1, db) else
  let f := ad_storeForm c1 in
  match api_select_profiles row_security uid
          (λ p, bool_decide (p_email p = sf_ownerEmail f)) db with
  | Ok [ownerProfile] =>
      match api_insert_store row_security uid gen now
              (sf_name f) (sf_email f) (sf_address f) (p_id ownerProfile) db with
      | Err e => (ad_toast (Toast "Error" (error_message e) true) c1, db)
      | Ok db' =>
          let c2 := ad_toast (Toast "Success" "Store created successfully" false) c1 in
          (ad_fetchData row_security uid db'
             {| ad_stats := ad_stats c2; ad_users := ad_users c2; ad_stores := ad_stores c2;
                ad_userForm := ad_userForm c2; ad_storeForm := empty_storeForm;
                userDialogOpen := userDialogOpen c2; storeDialogOpen := false;
                ad_errors := ad_errors c2; ad_toasts := ad_toasts c2 |},
           db')
      end
  | _ => (ad_toast (Toast "Error" "Store owner not found" true) c1, db)
  end.

(** [user_metadata: { name, address, role }] *)
Definition user_metadata (f : UserForm) : gmap string jsonb :=
  {[ "name" := JString (uf_name f);
     "address" := JString (uf_address f);
     "role" := JString (role_label (uf_role f)) ]}.

(** Modelled from the spec: [supabase.auth.admin.createUser] belongs to the
    authentication boundary, which the repository does not contain; per the
    spec it registers the account and thereby invokes the provisioning hook.
    [acct] is the identifier the boundary gives the account and [gen] the
    one generated for its profile. *)
Definition auth_admin_createUser (acct gen : uuid) (now : timestamptz)
    (email : text) (metadata : gmap string jsonb) (db : DB) : result DB :=
  insert_auth_user gen now
    {| acct_id := acct; acct_email := email; raw_user_meta_data := Some metadata |} db.

(** [handleCreateUser]: validate, then create the account with the form's
    name, address and role as metadata. *)
Definition handleCreateUser (row_security : bool) (uid : option uuid)
    (acct gen : uuid) (now : timestamptz)
    (c : AdminDashboard) (db : DB) : AdminDashboard * DB :=
  let (valid, c1) := validateUserForm c in
  if negb valid then (c1, db) else
  let f := ad_userForm c1 in
  match auth_admin_createUser acct gen now (uf_email f) (user_metadata f) db with
  | Err e => (ad_toast (Toast "Error" (error_message e) true) c1, db)
  | Ok db' =>
      let c2 := ad_toast (Toast "Success" "User created successfully" false) c1 in
      (ad_fetchData row_security uid db'
         {| ad_stats := ad_stats c2; ad_users := ad_users c2; ad_stores := ad_stores c2;
            ad_userForm := empty_userForm; ad_storeForm := ad_storeForm c2;
            userDialogOpen := false; storeDialogOpen := storeDialogOpen c2;
            ad_errors := ad_errors c2; ad_toasts := ad_toasts c2 |},
       db')
  end.

End AdminDashboard.

(** ** Consistency: every constraint of the schema holds *)

Record consistent (db : DB) : Prop := {
  pk_auth_users : NoDup (acct_id <$> auth_users db);
  pk_profiles : NoDup (p_id <$> profiles db);
  uq_profiles_user_id : NoDup (p_user_id <$> profiles db);
  pk_stores : NoDup (s_id <$> stores db);
  pk_ratings : NoDup (r_id <$> ratings db);
  uq_ratings_user_store : NoDup (rating_key <$> ratings db);
  fk_profiles_user_id :
    Forall (λ p, p_user_id p ∈ acct_id <$> auth_users db) (profiles db);
  fk_stores_owner_id :
    Forall (λ s, s_owner_id s ∈ p_id <$> profiles db) (stores db);
  fk_ratings_user_id :
    Forall (λ r, r_user_id r ∈ p_id <$> profiles db) (ratings db);
  fk_ratings_store_id :
    Forall (λ r, r_store_id r ∈ s_id <$> stores db) (ratings db);
  ck_profiles :
    Forall (λ p, name_check (p_name p) = true ∧
                 profiles_address_check (p_address p) = true) (profiles db);
  ck_stores :
    Forall (λ s, name_check (s_name s) = true ∧
                 stores_address_check (s_address s) = true) (stores db);
  ck_ratings :
    Forall (λ r, rating_check (r_rating r) = true) (ratings db)
}.

(** [run sts db]: the statements of [sts] committed one after the other. *)
Fixpoint run (sts : list statement) (db : DB) : result DB :=
  match sts with
  | [] => Ok db
  | st :: sts' => db' ← exec st db; run sts' db'
  end.

(** ** Sample data

    One store owner, three raters who gave 3, 5 and 4, and a newcomer who has
    not rated yet. *)

Definition meta (name : option text) (role : option text) : option (gmap string jsonb) :=
  Some (from_option (λ n, {[ "name" := JString n ]}) ∅ name
        ∪ from_option (λ r, {[ "role" := JString r ]}) ∅ role).

Definition sample_accounts : list account := [
  {| acct_id := 1%N; acct_email := "olivia@example.com";
     raw_user_meta_data := meta (Some "Olivia Owner of the Store") (Some "store_owner") |};
  {| acct_id := 2%N; acct_email := "ursula@example.com";
     raw_user_meta_data := meta (Some "Ursula User the Regular") None |};
  {| acct_id := 3%N; acct_email := "victor@example.com";
     raw_user_meta_data := meta (Some "Victor Visitor the Second") (Some "normal_user") |};
  {| acct_id := 4%N; acct_email := "alice@example.com";
     raw_user_meta_data := None |};
  {| acct_id := 5%N; acct_email := "nadia@example.com";
     raw_user_meta_data := meta (Some "Nadia Newcomer No Ratings") None |}
].

Definition sample_profile (id user_id : uuid) (name email : text) (role : user_role)
    : profile :=
  {| p_id := id; p_user_id := user_id; p_name := name; p_email := email;
     p_address := None; p_role := role; p_created_at := 0%Z; p_updated_at := 0%Z |}.

Definition olivia : profile :=
  sample_profile 101 1 "Olivia Owner of the Store" "olivia@example.com" store_owner.
Definition ursula : profile :=
  sample_profile 102 2 "Ursula User the Regular" "ursula@example.com" normal_user.
Definition victor : profile :=
  sample_profile 103 3 "Victor Visitor the Second" "victor@example.com" normal_user.
Definition alice : profile :=
  sample_profile 104 4 default_name "alice@example.com" normal_user.
Definition nadia : profile :=
  sample_profile 105 5 "Nadia Newcomer No Ratings" "nadia@example.com" normal_user.

Definition corner_coffee : store :=
  {| s_id := 201%N; s_owner_id := 101%N; s_name := "The Corner Coffee House";
     s_email := "corner@example.com"; s_address := "1 Market Square";
     s_created_at := 1%Z; s_updated_at := 1%Z |}.

Definition sample_ratings : list rating := [
  new_rating 301 2%Z 102 201 3%Z;
  new_rating 302 3%Z 103 201 5%Z;
  new_rating 303 4%Z 104 201 4%Z
].

Definition sample_db : DB :=
  {| auth_users := sample_accounts;
     profiles := [olivia; ursula; victor; alice; nadia];
     stores := [corner_coffee];
     ratings := sample_ratings |}.

(** The statements that build [sample_db]. *)
Definition sample_history : list statement :=
  zip_with (λ a gen, INSERT_auth_users gen 0%Z a) sample_accounts
           [101%N; 102%N; 103%N; 104%N; 105%N]
  ++ [INSERT_stores corner_coffee]
  ++ (INSERT_ratings <$> sample_ratings).

(** A second store, entered with an empty address. *)
Definition nameless_lane : store :=
  {| s_id := 202%N; s_owner_id := 101%N; s_name := "The Shop With No Address";
     s_email := "lane@example.com"; s_address := "";
     s_created_at := 8%Z; s_updated_at := 8%Z |}.

(** New accounts: one without metadata, one asking for a role the enum does
    not have, one proposing a three-letter name. *)
Definition account_without_metadata : account :=
  {| acct_id := 6%N; acct_email := "alice@example.com"; raw_user_meta_data := None |}.

Definition account_with_unknown_role : account :=
  {| acct_id := 7%N; acct_email := "mallory@example.com";
     raw_user_meta_data := meta None (Some "superuser") |}.

Definition account_named_bob : account :=
  {| acct_id := 8%N; acct_email := "bob@example.com";
     raw_user_meta_data := meta (Some "Bob") None |}.

(** Ursula's dashboard showing the coffee house, with a list of own ratings
    that was fetched before the coffee house was rated. *)
Definition corner_coffee_row : store_rating :=
  {| sr_store := corner_coffee; average_rating := 4; total_ratings := 3 |}.


(** Nadia's dashboard, freshly loaded. *)
Definition nadia_dashboard : UserDashboard :=
  {| ud_profile := Some nadia;
     ud_stores := [corner_coffee_row];
     userRatings := [];
     selectedStore := None;
     newRating := 0;
     ratingDialogOpen := false;
     ud_toasts := [] |}.

(** A new account asking for the administrator role. *)
Definition account_asking_admin : account :=
  {| acct_id := 10%N; acct_email := "eve@example.com";
     raw_user_meta_data := meta (Some "Eve Example the Eager One") (Some "admin") |}.

(** Ursula's dashboard remembering the 3 given to the coffee house, with the
    dialog open on 5. *)
Definition remembering_dashboard : UserDashboard :=
  {| ud_profile := Some ursula;
     ud_stores := [corner_coffee_row];
     userRatings := [new_rating 301 2%Z 102 201 3%Z];
     selectedStore := Some corner_coffee_row;
     newRating := 5;
     ratingDialogOpen := true;
     ud_toasts := [] |}.

Definition empty_owner_dashboard : StoreOwnerDashboard :=
  {| so_store := None; so_ratings := []; so_toasts := [] |}.

(** The admin dashboard as it is first rendered. *)
Definition empty_admin_dashboard : AdminDashboard :=
  {| ad_stats := {| totalUsers := 0; totalStores := 0; totalRatings_stat := 0 |};
     ad_users := []; ad_stores := [];
     ad_userForm := empty_userForm; ad_storeForm := empty_storeForm;
     userDialogOpen := false; storeDialogOpen := false;
     ad_errors := ∅; ad_toasts := [] |}.

(** The sample database with the coffee house rated 3, 3 and 4. *)
Definition three_three_four : DB :=
  with_ratings [new_rating 301 2%Z 102 201 3%Z;
                new_rating 302 3%Z 103 201 3%Z;
                new_rating 303 4%Z 104 201 4%Z] sample_db.

(** * Properties *)

(** ** The error monad *)

Lemma bind_Ok {A B} (m : result A) (k : A → result B) (b : B) :
  m ≫= k = Ok b ↔ ∃ a, m = Ok a ∧ k a = Ok b.
Proof.
  destruct m as [a|e]; simpl; split.
  - intros H. by exists a.
  - by intros (a' & [= <-] & H).
  - intros H. discriminate.
  - by intros (a' & [=] & _).
Qed.

Lemma require_Ok (c : bool) (e : pg_error) (u : ()) :
  require c e = Ok u ↔ c = true.
Proof. destruct c, u; simpl; split; congruence. Qed.

Lemma require_Err (c : bool) (e e' : pg_error) :
  require c e = Err e' ↔ c = false ∧ e' = e.
Proof. destruct c; simpl; intuition congruence. Qed.

Lemma check_all_Ok {A} (f : A → result ()) (l : list A) (u : ()) :
  check_all f l = Ok u ↔ Forall (λ x, f x = Ok ()) l.
Proof.
  destruct u. induction l as [|x l IH]; simpl.
  - split; [constructor | done].
  - rewrite bind_Ok, Forall_cons. split.
    + intros ([] & Hx & Hl). split; [done | by apply IH].
    + intros [Hx Hl]. exists (). split; [done | by apply IH].
Qed.

(** Unfold the monadic steps of a statement that returned [Ok]. *)
Ltac inv_ok :=
  repeat match goal with
    | H : _ ≫= _ = Ok _ |- _ => apply bind_Ok in H as (? & ? & ?)
    | H : require _ _ = Ok _ |- _ => apply require_Ok in H
    | H : check_all _ _ = Ok _ |- _ => apply check_all_Ok in H
    | H : Ok _ = Ok _ |- _ => injection H as H
    | u : () |- _ => destruct u
    | H : bool_decide _ = true |- _ => apply bool_decide_eq_true in H
    | H : _ && _ = true |- _ => apply andb_true_iff in H as [? ?]
    end.

Ltac solve_row_check :=
  unfold require, mbind, result_bind;
  repeat match goal with
    | |- context [bool_decide ?P] => destruct (bool_decide_reflect P)
    | |- context [if ?b then _ else _] => destruct b eqn:?
    end; intuition congruence.

Lemma profiles_row_check_Ok others p :
  profiles_row_check others p = Ok () ↔
    name_check (p_name p) = true ∧ profiles_address_check (p_address p) = true ∧
    (p_id p ∉ p_id <$> others) ∧ (p_user_id p ∉ p_user_id <$> others).
Proof. unfold profiles_row_check. solve_row_check. Qed.

Lemma stores_row_check_Ok others s :
  stores_row_check others s = Ok () ↔
    name_check (s_name s) = true ∧ stores_address_check (s_address s) = true ∧
    s_id s ∉ (s_id <$> others).
Proof. unfold stores_row_check. solve_row_check. Qed.

Lemma ratings_row_check_Ok others r :
  ratings_row_check others r = Ok () ↔
    rating_check (r_rating r) = true ∧ (r_id r ∉ r_id <$> others) ∧
    rating_key r ∉ rating_key <$> others.
Proof. unfold ratings_row_check. solve_row_check. Qed.

Lemma profiles_fk_Ok db p :
  profiles_fk db p = Ok () ↔ p_user_id p ∈ acct_id <$> auth_users db.
Proof. unfold profiles_fk. solve_row_check. Qed.

Lemma stores_fk_Ok db s :
  stores_fk db s = Ok () ↔ s_owner_id s ∈ p_id <$> profiles db.
Proof. unfold stores_fk. solve_row_check. Qed.

Lemma ratings_fk_Ok db r :
  ratings_fk db r = Ok () ↔
    r_user_id r ∈ (p_id <$> profiles db) ∧ r_store_id r ∈ (s_id <$> stores db).
Proof. unfold ratings_fk. solve_row_check. Qed.

(** ** Row-by-row updates *)

Section update_rows_facts.
Context {A : Type}.
Variable where_ : A → bool.
Variable set : A → A.
Variable row_check : list A → A → result ().

(** The rows of the result, in place. *)
Lemma update_rows_Ok done todo l :
  update_rows where_ set row_check done todo = Ok l →
  l = done ++ ((λ r, if where_ r then set r else r) <$> todo).
Proof.
  revert done. induction todo as [|r rest IH]; intros done; simpl.
  - intros [= <-]. by rewrite app_nil_r.
  - destruct (where_ r).
    + rewrite bind_Ok. intros (_ & _ & H). apply IH in H.
      by rewrite <- app_assoc in H.
    + intros H. apply IH in H. by rewrite <- app_assoc in H.
Qed.

(** A unique index survives: no key is ever duplicated. *)
Lemma update_rows_NoDup {K} (key : A → K) done todo l :
  (∀ others r, row_check others r = Ok () → key r ∉ key <$> others) →
  NoDup (key <$> (done ++ todo)) →
  update_rows where_ set row_check done todo = Ok l →
  NoDup (key <$> l).
Proof.
  intros Hchk. revert done. induction todo as [|r rest IH]; intros done; simpl.
  - rewrite app_nil_r. by intros ? [= <-].
  - intros Hnd. destruct (where_ r).
    + rewrite bind_Ok. intros ([] & Hc & H). apply Hchk in Hc.
      apply IH in H; [done|].
      rewrite <- app_assoc. simpl.
      rewrite fmap_app, fmap_cons in Hnd |- *.
      rewrite fmap_app in Hc.
      apply NoDup_app in Hnd as (Hd & Hdr & Hr).
      apply NoDup_cons in Hr as [_ Hr].
      apply NoDup_app. split_and!; [done | | ].
      * intros k Hk [->|Hk']%elem_of_cons.
        -- apply Hc, elem_of_app. by left.
        -- eapply Hdr; [done|]. by right.
      * apply NoDup_cons. split; [|done].
        intros Hk. apply Hc, elem_of_app. by right.
    + intros H. apply IH in H; [done|]. by rewrite <- app_assoc.
Qed.

(** A property every accepted row has, and every untouched row had. *)
Lemma update_rows_Forall (P : A → Prop) done todo l :
  (∀ others r, row_check others r = Ok () → P r) →
  Forall P (done ++ todo) →
  update_rows where_ set row_check done todo = Ok l →
  Forall P l.
Proof.
  intros Hchk. revert done. induction todo as [|r rest IH]; intros done; simpl.
  - rewrite app_nil_r. by intros ? [= <-].
  - intros HP. destruct (where_ r).
    + rewrite bind_Ok. intros ([] & Hc & H). apply Hchk in Hc.
      apply IH in H; [done|].
      rewrite <- app_assoc. simpl.
      apply Forall_app in HP as [Hd Hr]. apply Forall_cons in Hr as [_ Hr].
      apply Forall_app. split; [done|]. by apply Forall_cons.
    + intros H. apply IH in H; [done|]. by rewrite <- app_assoc.
Qed.

(** Columns the statement does not assign keep their values. *)
Lemma update_rows_fmap {K} (key : A → K) todo l :
  (∀ r, key (set r) = key r) →
  update_rows where_ set row_check [] todo = Ok l →
  key <$> l = key <$> todo.
Proof.
  intros Hkey H. apply update_rows_Ok in H as ->. simpl.
  rewrite <- list_fmap_compose. apply list_fmap_ext.
  intros i r _. simpl. destruct (where_ r); [apply Hkey | done].
Qed.

Lemma update_rows_elem_of todo l x :
  update_rows where_ set row_check [] todo = Ok l →
  x ∈ l →
  (x ∈ todo ∧ where_ x = false) ∨ (∃ r, r ∈ todo ∧ where_ r = true ∧ x = set r).
Proof.
  intros H. apply update_rows_Ok in H as ->. simpl.
  intros (r & -> & Hr)%list_elem_of_fmap.
  destruct (where_ r) eqn:E; [right | left]; eauto.
Qed.
End update_rows_facts.

(** ** Every statement keeps the database consistent *)

Lemma NoDup_fmap_filter {A K} (key : A → K) (P : A → Prop) `{∀ x, Decision (P x)} l :
  NoDup (key <$> l) → NoDup (key <$> filter P l).
Proof.
  intros Hl. eapply sublist_NoDup; [done|]. apply fmap_sublist, sublist_filter.
Qed.

Lemma Forall_filter_keep {A} (P Q : A → Prop) `{∀ x, Decision (Q x)} l :
  Forall P l → Forall P (filter Q l).
Proof.
  rewrite !Forall_forall. intros HP x [_ Hx]%list_elem_of_filter. by apply HP.
Qed.

Lemma NoDup_fmap_snoc {A K} (key : A → K) l x :
  NoDup (key <$> l) → key x ∉ (key <$> l) → NoDup (key <$> (l ++ [x])).
Proof.
  intros Hl Hx. rewrite fmap_app. apply NoDup_app. split_and!; [done | | ].
  - intros k Hk ->%list_elem_of_singleton. done.
  - apply NoDup_singleton.
Qed.

Lemma Forall_ref_snoc {A B K} (ref : A → K) (key : B → K) rows l y :
  Forall (λ x, ref x ∈ key <$> l) rows →
  Forall (λ x, ref x ∈ key <$> (l ++ [y])) rows.
Proof.
  intros H. eapply Forall_impl; [exact H|].
  intros x Hx. simpl. rewrite fmap_app, elem_of_app. by left.
Qed.

Lemma Forall_snoc {A} (P : A → Prop) l x :
  Forall P l → P x → Forall P (l ++ [x]).
Proof. intros Hl Hx. apply Forall_app. split; [done|]. by apply Forall_singleton. Qed.

Ltac solve_insert :=
  first [ done
        | by apply NoDup_fmap_snoc
        | by apply Forall_ref_snoc
        | by apply Forall_snoc ].

Lemma empty_db_consistent : consistent empty_db.
Proof. split; simpl; constructor. Qed.

Lemma insert_profile_consistent p db db' :
  consistent db → insert_profile p db = Ok db' → consistent db'.
Proof.
  intros [] H. unfold insert_profile in H. inv_ok. subst db'.
  match goal with H : profiles_row_check _ _ = _ |- _ =>
    apply profiles_row_check_Ok in H as (? & ? & ? & ?) end.
  match goal with H : profiles_fk _ _ = _ |- _ => apply profiles_fk_Ok in H end.
  split; simpl; solve_insert.
Qed.

Lemma insert_store_consistent s db db' :
  consistent db → insert_store s db = Ok db' → consistent db'.
Proof.
  intros [] H. unfold insert_store in H. inv_ok. subst db'.
  match goal with H : stores_row_check _ _ = _ |- _ =>
    apply stores_row_check_Ok in H as (? & ? & ?) end.
  match goal with H : stores_fk _ _ = _ |- _ => apply stores_fk_Ok in H end.
  split; simpl; solve_insert.
Qed.

Lemma insert_rating_consistent r db db' :
  consistent db → insert_rating r db = Ok db' → consistent db'.
Proof.
  intros [] H. unfold insert_rating in H. inv_ok. subst db'.
  match goal with H : ratings_row_check _ _ = _ |- _ =>
    apply ratings_row_check_Ok in H as (? & ? & ?) end.
  match goal with H : ratings_fk _ _ = _ |- _ => apply ratings_fk_Ok in H as [? ?] end.
  split; simpl; solve_insert.
Qed.

Lemma insert_auth_user_consistent gen now NEW db db' :
  consistent db → insert_auth_user gen now NEW db = Ok db' → consistent db'.
Proof.
  intros Hc H. unfold insert_auth_user, handle_new_user in H. inv_ok.
  eapply insert_profile_consistent; [|done].
  destruct Hc. split; simpl; solve_insert.
Qed.

Lemma update_rows_Forall_set {A} (where_ : A → bool) (set : A → A) chk
    (P : A → Prop) todo l :
  (∀ r, P r → P (set r)) →
  Forall P todo →
  update_rows where_ set chk [] todo = Ok l →
  Forall P l.
Proof.
  intros Hset HP H. apply update_rows_Ok in H as ->. simpl.
  apply Forall_fmap. eapply Forall_impl; [exact HP|].
  intros r Hr. simpl. destruct (where_ r); auto.
Qed.

(** Rows an UPDATE leaves or rewrites, given what the foreign-key triggers
    accepted. *)
Lemma update_rows_Forall_fk {A} (where_ : A → bool) (set : A → A) chk
    (P : A → Prop) todo l :
  Forall P todo →
  Forall P (set <$> filter (λ r, where_ r) todo) →
  update_rows where_ set chk [] todo = Ok l →
  Forall P l.
Proof.
  intros HP Hnew H. apply Forall_forall. intros x Hx.
  eapply update_rows_elem_of in Hx as [[Hx _]|(r & Hr & Hw & ->)]; [| |exact H].
  - by eapply Forall_forall in HP.
  - eapply Forall_forall in Hnew; [exact Hnew|].
    apply list_elem_of_fmap. exists r. split; [done|].
    apply list_elem_of_filter. split; [|done]. by rewrite Hw.
Qed.

Lemma update_profiles_consistent w u now db db' :
  consistent db → update_profiles w u now db = Ok db' → consistent db'.
Proof.
  intros [] H. unfold update_profiles in H. inv_ok. subst db'.
  match goal with H : update_rows _ _ _ _ _ = Ok ?x |- _ =>
    rename H into Hu; rename x into l end.
  assert (Hid : p_id <$> l = p_id <$> profiles db)
    by (eapply update_rows_fmap; [|exact Hu]; done).
  split; simpl; rewrite ?Hid; try done.
  - eapply update_rows_NoDup; [| |exact Hu]; [|done].
    intros others r Hr. by apply profiles_row_check_Ok in Hr as (? & ? & ? & ?).
  - eapply update_rows_Forall_set; [| |exact Hu]; done.
  - eapply update_rows_Forall; [| |exact Hu]; [|done].
    intros others r Hr. by apply profiles_row_check_Ok in Hr as (? & ? & ? & ?).
Qed.

Lemma update_stores_consistent w u now db db' :
  consistent db → update_stores w u now db = Ok db' → consistent db'.
Proof.
  intros [] H. unfold update_stores in H. inv_ok. subst db'.
  match goal with H : update_rows _ _ _ _ _ = Ok ?x |- _ =>
    rename H into Hu; rename x into l end.
  match goal with H : Forall _ (_ <$> _) |- _ => rename H into Hfk end.
  assert (Hid : s_id <$> l = s_id <$> stores db)
    by (eapply update_rows_fmap; [|exact Hu]; done).
  split; simpl; rewrite ?Hid; try done.
  - eapply update_rows_Forall_fk; [| |exact Hu]; [done|].
    eapply Forall_impl; [exact Hfk|]. intros s Hs. by apply stores_fk_Ok in Hs.
  - eapply update_rows_Forall; [| |exact Hu]; [|done].
    intros others r Hr. by apply stores_row_check_Ok in Hr as (? & ? & ?).
Qed.

Lemma guarded_ratings_row_check_Ok (with_check : rating → bool) others r :
  (require (with_check r) (insufficient_privilege "ratings");;
   ratings_row_check others r) = Ok () →
  with_check r = true ∧ ratings_row_check others r = Ok ().
Proof. intros H. inv_ok. done. Qed.

Lemma update_ratings_consistent wc w u now db db' :
  consistent db → update_ratings wc w u now db = Ok db' → consistent db'.
Proof.
  intros [] H. unfold update_ratings in H. inv_ok. subst db'.
  match goal with H : update_rows _ _ _ _ _ = Ok ?x |- _ =>
    rename H into Hu; rename x into l end.
  match goal with H : Forall _ (_ <$> _) |- _ => rename H into Hfk end.
  split; simpl; try done.
  - eapply update_rows_NoDup; [| |exact Hu]; [|done].
    intros others r [_ Hr]%guarded_ratings_row_check_Ok.
    by apply ratings_row_check_Ok in Hr as (? & ? & ?).
  - eapply update_rows_NoDup; [| |exact Hu]; [|done].
    intros others r [_ Hr]%guarded_ratings_row_check_Ok.
    by apply ratings_row_check_Ok in Hr as (? & ? & ?).
  - eapply update_rows_Forall_fk; [| |exact Hu]; [done|].
    eapply Forall_impl; [exact Hfk|]. intros r Hr. by apply ratings_fk_Ok in Hr as [? ?].
  - eapply update_rows_Forall_fk; [| |exact Hu]; [done|].
    eapply Forall_impl; [exact Hfk|]. intros r Hr. by apply ratings_fk_Ok in Hr as [? ?].
  - eapply update_rows_Forall; [| |exact Hu]; [|done].
    intros others r [_ Hr]%guarded_ratings_row_check_Ok.
    by apply ratings_row_check_Ok in Hr as (? & ? & ?).
Qed.

(** A reference that pointed at a kept row still points at it. *)
Lemma ref_survives {B K} (key : B → K) (where_ : B → bool) (l : list B) (k : K) :
  k ∈ key <$> l →
  k ∉ key <$> filter (λ x, where_ x) l →
  k ∈ key <$> filter (λ x, ¬ where_ x) l.
Proof.
  intros (x & -> & Hx)%list_elem_of_fmap Hgone.
  apply list_elem_of_fmap. exists x. split; [done|].
  apply list_elem_of_filter. split; [|done].
  intros Hw. apply Hgone, list_elem_of_fmap. exists x. split; [done|].
  by apply list_elem_of_filter.
Qed.

Lemma delete_ratings_consistent w db :
  consistent db → consistent (delete_ratings w db).
Proof.
  intros []. split; simpl; try done;
    first [ by apply NoDup_fmap_filter | by apply Forall_filter_keep ].
Qed.

Lemma delete_stores_consistent w db :
  consistent db → consistent (delete_stores w db).
Proof.
  intros []. split; simpl; try done;
    try first [ by apply NoDup_fmap_filter | by apply Forall_filter_keep ].
  apply Forall_forall. intros r [Hgone Hr]%list_elem_of_filter.
  apply ref_survives; [|done].
  by eapply Forall_forall in fk_ratings_store_id0.
Qed.

Lemma delete_profiles_consistent w db :
  consistent db → consistent (delete_profiles w db).
Proof.
  intros Hc. unfold delete_profiles.
  set (gone := p_id <$> filter (λ p, w p) (profiles db)).
  pose proof (delete_stores_consistent (λ s, bool_decide (s_owner_id s ∈ gone)) db Hc) as Hc1.
  destruct Hc as [_ _ _ _ _ _ _ Hfk_s _ _ _ _ _].
  destruct Hc1. simpl in *. split; simpl; try done;
    try first [ by apply NoDup_fmap_filter | by apply Forall_filter_keep ].
  - apply Forall_forall. intros s [Hs Hin]%list_elem_of_filter.
    apply ref_survives.
    + by eapply Forall_forall in Hfk_s.
    + intros Hgone. apply Hs. by apply bool_decide_pack.
  - apply Forall_forall. intros r [Hgone Hr]%list_elem_of_filter.
    apply ref_survives; [|done].
    by eapply Forall_forall in fk_ratings_user_id0.
Qed.

Lemma delete_auth_users_consistent w db :
  consistent db → consistent (delete_auth_users w db).
Proof.
  intros Hc. unfold delete_auth_users.
  set (gone := acct_id <$> filter (λ a, w a) (auth_users db)).
  pose proof (delete_profiles_consistent (λ p, bool_decide (p_user_id p ∈ gone)) db Hc) as Hc1.
  destruct Hc as [_ _ _ _ _ _ Hfk_p _ _ _ _ _ _].
  destruct Hc1. simpl in *. split; simpl; try done;
    try first [ by apply NoDup_fmap_filter | by apply Forall_filter_keep ].
  apply Forall_forall. intros p [Hp Hin]%list_elem_of_filter.
  apply ref_survives.
  - by eapply Forall_forall in Hfk_p.
  - intros Hgone. apply Hp. by apply bool_decide_pack.
Qed.

(** Every committed statement takes a consistent database to a consistent
    one, so every reachable database is consistent. *)
Lemma exec_consistent st db db' :
  consistent db → exec st db = Ok db' → consistent db'.
Proof.
  intros Hc. destruct st; simpl.
  - by apply insert_auth_user_consistent.
  - intros [= <-]. by apply delete_auth_users_consistent.
  - by apply insert_profile_consistent.
  - by apply update_profiles_consistent.
  - intros [= <-]. by apply delete_profiles_consistent.
  - by apply insert_store_consistent.
  - by apply update_stores_consistent.
  - intros [= <-]. by apply delete_stores_consistent.
  - by apply insert_rating_consistent.
  - by apply update_ratings_consistent.
  - intros [= <-]. by apply delete_ratings_consistent.
Qed.

Lemma reachable_consistent db : reachable db → consistent db.
Proof.
  induction 1 as [|st db db' _ IH Hexec].
  - apply empty_db_consistent.
  - by eapply exec_consistent.
Qed.

Lemma run_reachable sts db db' :
  reachable db → run sts db = Ok db' → reachable db'.
Proof.
  revert db. induction sts as [|st sts IH]; intros db Hr; simpl.
  - by intros [= <-].
  - rewrite bind_Ok. intros (db1 & H1 & H2).
    eapply IH; [|exact H2]. by eapply reachable_exec.
Qed.

Lemma sample_db_reachable : reachable sample_db.
Proof.
  apply (run_reachable sample_history empty_db); [constructor|]. vm_compute. reflexivity.
Qed.

(** ** The aggregation view *)

Lemma filter_all {A} (P : A → Prop) `{∀ x, Decision (P x)} (l : list A) :
  Forall P l → filter P l = l.
Proof.
  induction 1 as [|x l Hx _ IH]; [done|].
  rewrite filter_cons_True by done. by rewrite IH.
Qed.

Lemma filter_none {A} (P : A → Prop) `{∀ x, Decision (P x)} (l : list A) :
  Forall (λ x, ¬ P x) l → filter P l = [].
Proof.
  induction 1 as [|x l Hx _ IH]; [done|].
  by rewrite filter_cons_False.
Qed.

Lemma left_join_cons s ss rs :
  left_join (s :: ss) rs = ((λ o, (s, o)) <$> joined_rows s rs) ++ left_join ss rs.
Proof. done. Qed.

Lemma left_join_fst s ss rs :
  s ∈ fst <$> left_join ss rs ↔ s ∈ ss.
Proof.
  induction ss as [|s' ss IH].
  - unfold left_join. simpl. by rewrite !elem_of_nil.
  - rewrite left_join_cons, fmap_app, elem_of_app, IH, elem_of_cons.
    rewrite <- list_fmap_compose.
    assert (s ∈ (fst ∘ (λ o : option rating, (s', o))) <$> joined_rows s' rs ↔ s = s')
      as ->; [|done].
    rewrite list_elem_of_fmap. split.
    + by intros (o & -> & _).
    + intros ->. unfold joined_rows.
      destruct (filter _ rs) as [|r m]; simpl; eexists; (split; [done|]); by left.
Qed.

(** The group of a store is exactly its joined rows. *)
Lemma group_of_store S ss rs :
  NoDup ss → S ∈ ss →
  snd <$> filter (λ kv, kv.1 = S) (left_join ss rs) = joined_rows S rs.
Proof.
  induction ss as [|s ss IH]; intros Hnd HS.
  - by apply elem_of_nil in HS.
  - apply NoDup_cons in Hnd as [Hs Hnd].
    rewrite left_join_cons, filter_app, fmap_app.
    destruct (decide (s = S)) as [->|Hne].
    + assert (filter (λ kv, kv.1 = S) (left_join ss rs) = []) as ->.
      { apply filter_none, Forall_forall. intros [s' o] Hin Heq. simpl in Heq. subst s'.
        apply Hs, (left_join_fst S ss rs), list_elem_of_fmap. by exists (S, o). }
      rewrite app_nil_r, filter_all.
      * rewrite <- list_fmap_compose. simpl. apply list_fmap_id.
      * apply Forall_fmap, Forall_forall. by intros o _.
    + rewrite filter_none.
      * simpl. apply IH; [done|]. apply elem_of_cons in HS as [->|HS]; done.
      * apply Forall_fmap, Forall_forall. intros o _. simpl. done.
Qed.

Lemma non_null_column_Some {A B} (f : A → B) (l : list A) :
  non_null (column f (Some <$> l)) = f <$> l.
Proof.
  induction l as [|x l IH]; [done|].
  unfold non_null, column in *. simpl. f_equal. exact IH.
Qed.

Lemma non_null_column_joined {B} (f : rating → B) S db :
  non_null (column f (joined_rows S (ratings db))) = f <$> ratings_of (s_id S) db.
Proof.
  unfold joined_rows, ratings_of.
  rewrite (list_filter_iff (λ r, s_id S = r_store_id r) (λ r, r_store_id r = s_id S))
    by (intros r; split; congruence).
  destruct (filter _ (ratings db)) as [|r m] eqn:E; [done|].
  by rewrite non_null_column_Some.
Qed.

(** *** [numeric] division *)

Lemma weight_aux_spec (fuel : nat) (n : Z) :
  (0 < n < 2 ^ Z.of_nat fuel)%Z →
  (0 ≤ weight_aux fuel n ∧
   NBASE ^ weight_aux fuel n ≤ n < NBASE ^ (weight_aux fuel n + 1))%Z.
Proof.
  revert n. induction fuel as [|fuel IH]; intros n [Hpos Hlt].
  - simpl in Hlt. lia.
  - cbn [weight_aux]. destruct (Z.ltb_spec n NBASE) as [Hsmall|Hbig].
    + unfold NBASE in *. simpl. lia.
    + assert (Hq : (0 < n / NBASE < 2 ^ Z.of_nat fuel)%Z).
      { unfold NBASE in *. split.
        - apply Z.div_str_pos. lia.
        - apply Z.div_lt_upper_bound; [lia|].
          rewrite Nat2Z.inj_succ, Z.pow_succ_r in Hlt by lia.
          assert (0 < 2 ^ Z.of_nat fuel)%Z by (apply Z.pow_pos_nonneg; lia). lia. }
      destruct (IH _ Hq) as (Hw & Hlo & Hhi).
      set (w := weight_aux fuel (n / NBASE)) in *.
      split; [lia|].
      replace (1 + w + 1)%Z with (Z.succ (w + 1)) by lia.
      replace (1 + w)%Z with (Z.succ w) by lia.
      rewrite !Z.pow_succ_r by lia.
      pose proof (Z.div_mod n NBASE ltac:(unfold NBASE; lia)) as Hdm.
      pose proof (Z.mod_pos_bound n NBASE ltac:(unfold NBASE; lia)) as Hm.
      unfold NBASE in *. nia.
Qed.

Lemma weight_spec (n : Z) :
  (0 < n)%Z →
  (0 ≤ weight n ∧ NBASE ^ weight n ≤ n < NBASE ^ (weight n + 1))%Z.
Proof.
  intros Hn. apply weight_aux_spec. split; [done|].
  rewrite Nat2Z.inj_succ, Z2Nat.id by apply Z.log2_nonneg.
  apply Z.log2_spec. done.
Qed.

Lemma first_digit_spec (n : Z) :
  (0 < n)%Z →
  (first_digit n * NBASE ^ weight n ≤ n < (first_digit n + 1) * NBASE ^ weight n)%Z.
Proof.
  intros Hn. destruct (weight_spec n Hn) as (Hw & Hlo & _).
  assert (Hp : (0 < NBASE ^ weight n)%Z) by (apply Z.pow_pos_nonneg; [done|lia]).
  unfold first_digit.
  pose proof (Z.div_mod n (NBASE ^ weight n) ltac:(lia)) as Hdm.
  pose proof (Z.mod_pos_bound n (NBASE ^ weight n) Hp) as Hm.
  nia.
Qed.

(** Dividing a sum of scores between 1 and 5 by their number, the quotient
    is kept with 16 decimals or more. *)
Lemma select_div_scale_scores (n d : Z) :
  (0 < d)%Z → (d ≤ n ≤ 5 * d)%Z → (16 ≤ select_div_scale n d)%Z.
Proof.
  intros Hd Hn. unfold select_div_scale.
  rewrite !Z.abs_eq by lia.
  destruct (weight_spec n ltac:(lia)) as (Hw1 & Hlo1 & Hhi1).
  destruct (weight_spec d Hd) as (Hw2 & Hlo2 & Hhi2).
  pose proof (first_digit_spec n ltac:(lia)) as [Hf1 _].
  pose proof (first_digit_spec d Hd) as [_ Hf2].
  set (w1 := weight n) in *. set (w2 := weight d) in *.
  set (f1 := first_digit n) in *. set (f2 := first_digit d) in *.
  assert (Hp2 : (0 < NBASE ^ w2)%Z) by (apply Z.pow_pos_nonneg; [done|lia]).
  assert (Hw : (w1 ≤ w2 + 1)%Z).
  { destruct (Z.le_gt_cases w1 (w2 + 1)) as [|Hgt]; [done|exfalso].
    assert (NBASE ^ (w2 + 2) ≤ NBASE ^ w1)%Z
      by (apply Z.pow_le_mono_r; [done|lia]).
    replace (w2 + 2)%Z with (Z.succ (Z.succ w2)) in * by lia.
    replace (w2 + 1)%Z with (Z.succ w2) in * by lia.
    rewrite !Z.pow_succ_r in * by lia. unfold NBASE in *. nia. }
  unfold NUMERIC_MAX_DISPLAY_SCALE, NUMERIC_MIN_SIG_DIGITS, DEC_DIGITS.
  destruct (Z.leb_spec f1 f2) as [Hle|Hgt]; [lia|].
  assert (w1 ≤ w2)%Z; [|lia].
  destruct (Z.le_gt_cases w1 w2) as [|Hgt']; [done|exfalso].
  assert (w1 = Z.succ w2) as Hw1' by lia.
  rewrite Hw1', Z.pow_succ_r in Hf1 by lia.
  unfold NBASE in *. nia.
Qed.

Lemma select_div_scale_nonneg (n d : Z) : (0 ≤ select_div_scale n d)%Z.
Proof. unfold select_div_scale. apply Z.min_glb; [done | apply Z.le_max_l]. Qed.

Lemma scale_pos (n d : Z) : (0 < 10 ^ select_div_scale n d)%Z.
Proof. apply Z.pow_pos_nonneg; [done | apply select_div_scale_nonneg]. Qed.

(** The quotient is the nearest multiple of [10 ^ -scale]. *)
Lemma numeric_div_nearest (n d : Z) :
  (0 ≤ n)%Z → (0 < d)%Z →
  ∃ m : Z,
    (numeric_div n d == m # Z.to_pos (10 ^ select_div_scale n d))%Q ∧
    (0 ≤ m)%Z ∧
    (2 * d * m ≤ 2 * (n * 10 ^ select_div_scale n d) + d < 2 * d * (m + 1))%Z.
Proof.
  intros Hn Hd. unfold numeric_div.
  set (P := (10 ^ select_div_scale n d)%Z).
  rewrite !Z.abs_eq by lia.
  assert (HP : (0 < P)%Z) by apply scale_pos.
  set (m := ((2 * (n * P) + d) / (2 * d))%Z).
  assert (Hm : (0 ≤ m)%Z) by (apply Z.div_pos; nia).
  pose proof (Z.div_mod (2 * (n * P) + d) (2 * d) ltac:(lia)) as Hdm.
  pose proof (Z.mod_pos_bound (2 * (n * P) + d) (2 * d) ltac:(lia)) as Hmod.
  fold m in Hdm.
  exists (if decide (n = 0%Z) then 0%Z else m). split; [|split].
  - case_decide as Hz.
    + subst n. simpl. done.
    + rewrite (Z.sgn_pos n), (Z.sgn_pos d) by lia. by rewrite !Z.mul_1_l.
  - by case_decide.
  - case_decide as Hz; [|lia]. subst n. lia.
Qed.

Lemma Qmake_close (m n : Z) (P d : positive) :
  (2 * Z.pos d * m ≤ 2 * (n * Z.pos P) + Z.pos d < 2 * Z.pos d * (m + 1))%Z →
  (Qabs ((m # P) - (n # d)) <= 1 # (2 * P))%Q.
Proof.
  intros H. apply Qabs_Qle_condition.
  unfold Qle, Qminus, Qplus, Qopp. simpl.
  rewrite !Pos2Z.inj_mul. split; nia.
Qed.

(** [AVG] with its [COALESCE] is 0 on no input and otherwise within
    [10 ^ -scale / 2] of the arithmetic mean. *)
Lemma COALESCE_AVG_mean (xs : list (option Z)) :
  (0 ≤ SUM (non_null xs))%Z →
  (Qabs (COALESCE (AVG xs) 0 - mean (non_null xs))
   <= 1 # (2 * Z.to_pos (10 ^ select_div_scale (SUM (non_null xs))
                                               (Z.of_nat (length (non_null xs))))))%Q.
Proof.
  intros Hsum. unfold AVG, mean. destruct (non_null xs) as [|v vs] eqn:E; [done|].
  unfold COALESCE, default.
  set (n := SUM (v :: vs)) in *. set (len := length (v :: vs)).
  assert (Hlen : (0 < Z.of_nat len)%Z) by (subst len; simpl; lia).
  destruct (numeric_div_nearest n (Z.of_nat len) Hsum Hlen) as (m & -> & _ & Hm).
  assert (Hpos : Z.of_nat len = Z.pos (Pos.of_nat len)).
  { subst len. simpl length. by rewrite <- Pos.of_nat_succ, Zpos_P_of_succ_nat, Nat2Z.inj_succ. }
  apply Qmake_close. rewrite <- Hpos.
  rewrite Z2Pos.id; [done | apply scale_pos].
Qed.

Lemma COALESCE_AVG_none (xs : list (option Z)) :
  non_null xs = [] → COALESCE (AVG xs) 0%Q = 0%Q.
Proof. intros H. unfold AVG. by rewrite H. Qed.

Lemma SUM_bounds (l : list Z) :
  Forall (λ x, (1 ≤ x ≤ 5)%Z) l →
  (Z.of_nat (length l) ≤ SUM l ≤ 5 * Z.of_nat (length l))%Z.
Proof.
  induction 1 as [|x l Hx _ IH]; [simpl; lia|].
  simpl length. simpl SUM. lia.
Qed.

Lemma rating_check_bounds (z : Z) : rating_check z = true ↔ (1 ≤ z ≤ 5)%Z.
Proof. unfold rating_check. rewrite andb_true_iff, !Z.leb_le. done. Qed.

Lemma scores_of_store_in_range (db : DB) (sid : uuid) :
  consistent db → Forall (λ x, (1 ≤ x ≤ 5)%Z) (r_rating <$> ratings_of sid db).
Proof.
  intros Hc. apply Forall_fmap, Forall_forall. intros r [_ Hr]%list_elem_of_filter.
  simpl. apply rating_check_bounds.
  pose proof (ck_ratings db Hc) as Hck. by eapply Forall_forall in Hck.
Qed.

(** The row the view computes for a store, before the aggregates are
    related to the store's ratings. *)
Lemma store_ratings_row (db : DB) (S : store) :
  NoDup (s_id <$> stores db) →
  S ∈ stores db →
  {| sr_store := S;
     average_rating := COALESCE (AVG (column r_rating (joined_rows S (ratings db)))) 0%Q;
     total_ratings := COUNT (column r_id (joined_rows S (ratings db))) |}
  ∈ store_ratings db.
Proof.
  intros Hpk HS. apply NoDup_fmap_1 in Hpk.
  rewrite <- (group_of_store S (stores db) (ratings db) Hpk HS).
  unfold store_ratings. apply list_elem_of_fmap.
  exists (S, snd <$> filter (λ kv, kv.1 = S) (left_join (stores db) (ratings db))).
  split; [done|].
  unfold group_by. apply list_elem_of_fmap. exists S. split; [done|].
  by apply elem_of_remove_dups, left_join_fst.
Qed.

(** Each group has its own key, so a store has no second row. *)
Lemma store_ratings_row_unique (db : DB) (row row' : store_rating) :
  row ∈ store_ratings db → row' ∈ store_ratings db →
  sr_store row = sr_store row' → row = row'.
Proof.
  unfold store_ratings, group_by.
  intros (g & -> & (k & -> & _)%list_elem_of_fmap)%list_elem_of_fmap.
  intros (g' & -> & (k' & -> & _)%list_elem_of_fmap)%list_elem_of_fmap.
  simpl. by intros ->.
Qed.

Lemma half_ulp_16 (n d : Z) :
  (16 ≤ select_div_scale n d)%Z →
  (1 # (2 * Z.to_pos (10 ^ select_div_scale n d)) <= 5 # 100000000000000000)%Q.
Proof.
  intros Hs. unfold Qle. simpl.
  rewrite Pos2Z.inj_mul, Z2Pos.id by apply scale_pos.
  assert (10 ^ 16 ≤ 10 ^ select_div_scale n d)%Z by (apply Z.pow_le_mono_r; lia).
  change (10 ^ 16)%Z with 10000000000000000%Z in *. lia.
Qed.

(** C1, as amended. For every store S of a consistent database, the view
    [store_ratings] has exactly one row for S.  Its [total_ratings] is the
    number of Rating rows whose store is S.  Its [average_rating] is 0 when
    there are none, and otherwise the arithmetic mean of their scores as
    [numeric] division returns it: rounded at 16 decimals or more, hence
    within 5e-17 of the mean. *)
Theorem store_ratings_mean_and_count (db : DB) (S : store) :
  consistent db →
  S ∈ stores db →
  ∃ row,
    row ∈ store_ratings db ∧
    sr_store row = S ∧
    (Qabs (average_rating row - averageRating (s_id S) db) <= 5 # 100000000000000000)%Q ∧
    (ratings_of (s_id S) db = [] → average_rating row = 0%Q) ∧
    total_ratings row = totalRatings (s_id S) db ∧
    ∀ row', row' ∈ store_ratings db → sr_store row' = S → row' = row.
Proof.
  intros Hc HS.
  pose proof (store_ratings_row db S (pk_stores db Hc) HS) as Hrow.
  pose proof (scores_of_store_in_range db (s_id S) Hc) as Hscores.
  pose proof (SUM_bounds _ Hscores) as Hsum.
  eexists. split; [exact Hrow|]. split_and!.
  - done.
  - simpl. unfold averageRating.
    destruct (ratings_of (s_id S) db) as [|r rs] eqn:E.
    + rewrite COALESCE_AVG_none by (by rewrite non_null_column_joined, E). done.
    + rewrite <- E in *.
      eapply Qle_trans.
      * rewrite <- (non_null_column_joined r_rating S db).
        apply COALESCE_AVG_mean. rewrite non_null_column_joined. lia.
      * rewrite non_null_column_joined. apply half_ulp_16.
        apply select_div_scale_scores; [|lia].
        rewrite E. simpl. lia.
  - intros Hnone. simpl. apply COALESCE_AVG_none.
    by rewrite non_null_column_joined, Hnone.
  - simpl. unfold COUNT, totalRatings.
    by rewrite non_null_column_joined, length_fmap.
  - intros row' Hin Heq. by apply (store_ratings_row_unique db).
Qed.

Lemma store_ratings_mean_and_count_witness :
  consistent sample_db ∧ corner_coffee ∈ stores sample_db ∧
  ∃ row, row ∈ store_ratings sample_db ∧ sr_store row = corner_coffee ∧
         (Qabs (average_rating row - (12 # 3)) <= 5 # 100000000000000000)%Q ∧
         total_ratings row = 3%Z.
Proof.
  pose proof (reachable_consistent _ sample_db_reachable) as H1.
  assert (H2 : corner_coffee ∈ stores sample_db)
    by (apply list_elem_of_singleton; reflexivity).
  split; [exact H1|]. split; [exact H2|].
  destruct (store_ratings_mean_and_count sample_db corner_coffee H1 H2)
    as (row & Hin & Hs & Havg & _ & Hcnt & _).
  exists row. split; [exact Hin|]. split; [exact Hs|]. split.
  - exact Havg.
  - rewrite Hcnt. reflexivity.
Defined.

(** C1, as stated, fails: for scores 3, 3 and 4 the view shows
    3.3333333333333333, which is not the mean 10/3. *)
Lemma mean_of_three_three_four_is_rounded :
  average_rating <$> store_ratings three_three_four
  = [(33333333333333333 # 10000000000000000)%Q] ∧
  averageRating 201 three_three_four = (10 # 3)%Q ∧
  ¬ (33333333333333333 # 10000000000000000 == 10 # 3)%Q.
Proof.
  split; [vm_compute; reflexivity|]. split; [vm_compute; reflexivity|].
  unfold Qeq. simpl. lia.
Qed.

(** ** The uniqueness constraint on ratings *)

Lemma NoDup_key_filter_length {A K} `{EqDecision K} (key : A → K) (k : K) (l : list A) :
  NoDup (key <$> l) → length (filter (λ x, key x = k) l) ≤ 1.
Proof.
  induction l as [|x l IH]; [simpl; lia|].
  rewrite fmap_cons, NoDup_cons. intros [Hx Hl].
  destruct (decide (key x = k)) as [Hk|Hk].
  - rewrite filter_cons_True by done. rewrite filter_none; [simpl; lia|].
    apply Forall_forall. intros y Hy Hyk. apply Hx, list_elem_of_fmap.
    exists y. split; [congruence | done].
  - rewrite filter_cons_False by done. by apply IH.
Qed.

Lemma ratings_row_check_duplicate (others : list rating) (r : rating) :
  rating_key r ∈ rating_key <$> others →
  ∃ e, ratings_row_check others r = Err e ∧ is_validation_error e = true ∧
       (rating_check (r_rating r) = true → r_id r ∉ r_id <$> others →
        e = unique_violation "ratings_user_id_store_id_key").
Proof.
  intros Hdup. unfold ratings_row_check, require, mbind, result_bind.
  destruct (rating_check (r_rating r)); [|by eexists].
  destruct (bool_decide_reflect (r_id r ∉ r_id <$> others)); [|by eexists].
  destruct (bool_decide_reflect (rating_key r ∉ rating_key <$> others)); [done|].
  by eexists.
Qed.

Lemma rating_check_int4 (z : Z) : rating_check z = true → int4_in z = true.
Proof.
  unfold rating_check, int4_in. rewrite !andb_true_iff, !Z.leb_le. lia.
Qed.

(** C2. At any time at most one Rating row exists for a rater R and a store
    T, and inserting a second row for (R, T) fails with a constraint
    violation -- the unique violation, when nothing else is wrong with the
    row -- and leaves the table as it was. *)
Theorem ratings_one_per_rater_and_store (db : DB) (R T : uuid) :
  reachable db →
  length (filter (λ r, rating_key r = (R, T)) (ratings db)) ≤ 1 ∧
  ∀ r : rating,
    rating_key r = (R, T) →
    (∃ r0, r0 ∈ ratings db ∧ rating_key r0 = (R, T)) →
    ∃ e, transaction (insert_rating r) db = (db, Some e) ∧
         is_validation_error e = true ∧
         (rating_check (r_rating r) = true → r_id r ∉ r_id <$> ratings db →
          e = unique_violation "ratings_user_id_store_id_key").
Proof.
  intros Hc%reachable_consistent. split.
  - apply NoDup_key_filter_length, Hc.
  - intros r Hr (r0 & Hin & Hr0).
    destruct (ratings_row_check_duplicate (ratings db) r) as (e & He & Hv & Hu).
    { apply list_elem_of_fmap. exists r0. split; [congruence | done]. }
    destruct (int4_in (r_rating r)) eqn:Hint.
    + exists e. split; [|done].
      unfold transaction, insert_rating. by rewrite Hint, He.
    + exists (numeric_value_out_of_range "integer"). split_and!; [|done|].
      * unfold transaction, insert_rating. by rewrite Hint.
      * intros Hck%rating_check_int4. congruence.
Qed.

Lemma ratings_one_per_rater_and_store_witness :
  reachable sample_db ∧
  length (filter (λ r, rating_key r = (102%N, 201%N)) (ratings sample_db)) ≤ 1 ∧
  transaction (insert_rating (new_rating 399 9%Z 102 201 5%Z)) sample_db
  = (sample_db, Some (unique_violation "ratings_user_id_store_id_key")).
Proof.
  pose proof sample_db_reachable as Hr.
  destruct (ratings_one_per_rater_and_store sample_db 102 201 Hr) as [Hlen Hins].
  split; [exact Hr|]. split; [exact Hlen|].
  destruct (Hins (new_rating 399 9%Z 102 201 5%Z)) as (e & He & _ & Hu).
  - reflexivity.
  - exists (new_rating 301 2%Z 102 201 3%Z). split; [|reflexivity].
    apply list_elem_of_here.
  - rewrite He. rewrite Hu; [reflexivity | reflexivity | ].
    vm_compute. intros H. apply list_elem_of_In in H. simpl in H. intuition discriminate.
Defined.

(** ** The CHECK constraints on names and addresses *)

Lemma name_check_bounds (name : text) :
  name_check name = true ↔ 20 ≤ String.length name ≤ 60.
Proof.
  unfold name_check. rewrite andb_true_iff, !Nat.leb_le. done.
Qed.

(** C4, as amended. Whatever statement wrote it, a persisted Profile or
    Store row has a name of 20 to 60 characters and an address of at most
    400 characters (a profile may have none); the schema has no lower bound
    on the length of a store's address. *)
Theorem persisted_rows_within_bounds (db : DB) :
  reachable db →
  (∀ p, p ∈ profiles db →
        20 ≤ String.length (p_name p) ≤ 60 ∧
        ∀ a, p_address p = Some a → String.length a ≤ 400) ∧
  (∀ s, s ∈ stores db →
        20 ≤ String.length (s_name s) ≤ 60 ∧
        String.length (s_address s) ≤ 400).
Proof.
  intros Hc%reachable_consistent. split.
  - intros p Hp. destruct Hc as [_ _ _ _ _ _ _ _ _ _ Hck _ _].
    eapply Forall_forall in Hck as [Hn Ha]; [|exact Hp].
    split; [by apply name_check_bounds|].
    intros a Heq. rewrite Heq in Ha. simpl in Ha. by apply Nat.leb_le.
  - intros s Hs. destruct Hc as [_ _ _ _ _ _ _ _ _ _ _ Hck _].
    eapply Forall_forall in Hck as [Hn Ha]; [|exact Hs].
    split; [by apply name_check_bounds|]. by apply Nat.leb_le.
Qed.

Lemma persisted_rows_within_bounds_witness :
  reachable sample_db ∧
  20 ≤ String.length (p_name alice) ≤ 60 ∧
  20 ≤ String.length (s_name corner_coffee) ≤ 60 ∧
  String.length (s_address corner_coffee) ≤ 400.
Proof.
  pose proof sample_db_reachable as Hr.
  destruct (persisted_rows_within_bounds sample_db Hr) as [Hp Hs].
  split; [exact Hr|].
  destruct (Hp alice) as [Hn _].
  { do 3 apply list_elem_of_further. apply list_elem_of_here. }
  destruct (Hs corner_coffee) as [Hsn Hsa]; [apply list_elem_of_here|].
  split; [exact Hn|]. split; [exact Hsn | exact Hsa].
Defined.

(** C4, as stated, fails: a store whose address is the empty string passes
    every constraint of [stores] and is persisted; only the form schema of
    the admin dashboard would have refused it. *)
Lemma store_with_empty_address_persisted :
  reachable sample_db ∧
  insert_store nameless_lane sample_db
  = Ok (with_stores [corner_coffee; nameless_lane] sample_db) ∧
  String.length (s_address nameless_lane) < 1 ∧
  storeSchema_address (s_address nameless_lane) = false.
Proof.
  split; [apply sample_db_reachable|]. split; [|split]; [| |reflexivity].
  - vm_compute. reflexivity.
  - simpl. lia.
Qed.

(** ** Cascading deletes *)

(** C9. Deleting a profile removes, in one statement, exactly that profile,
    the stores it owns, the ratings it authored and the ratings of the
    removed stores; in a consistent database nothing is left dangling. *)
Theorem delete_profile_cascades (db : DB) (id : uuid) :
  consistent db →
  let db' := delete_profile id db in
  (∀ p, p ∈ profiles db' ↔ p ∈ profiles db ∧ p_id p ≠ id) ∧
  (∀ s, s ∈ stores db' ↔ s ∈ stores db ∧ s_owner_id s ≠ id) ∧
  (∀ r, r ∈ ratings db' ↔
        r ∈ ratings db ∧ r_user_id r ≠ id ∧
        ¬ ∃ s, s ∈ stores db ∧ s_owner_id s = id ∧ s_id s = r_store_id r) ∧
  auth_users db' = auth_users db ∧
  consistent db'.
Proof.
  intros Hc db'. subst db'. unfold delete_profile.
  pose proof (delete_profiles_consistent (λ p, bool_decide (p_id p = id)) db Hc) as Hc'.
  assert (Hgone : ∀ k, k ∈ p_id <$> filter (λ p, bool_decide (p_id p = id)) (profiles db)
                       → k = id).
  { intros k (p & -> & [Hp _]%list_elem_of_filter)%list_elem_of_fmap.
    by apply bool_decide_unpack in Hp. }
  assert (Hhere : ∀ k, k ∈ p_id <$> profiles db → k = id →
            k ∈ p_id <$> filter (λ p, bool_decide (p_id p = id)) (profiles db)).
  { intros k (p & -> & Hp)%list_elem_of_fmap Hk. apply list_elem_of_fmap.
    exists p. split; [done|]. apply list_elem_of_filter. split; [|done].
    by apply bool_decide_pack. }
  split_and!; [| | |done|done].
  - intros p. unfold delete_profiles. simpl. rewrite list_elem_of_filter.
    split.
    + intros [Hp Hin]. split; [done|]. intros Heq. by apply Hp, bool_decide_pack.
    + intros [Hin Hne]. split; [|done]. by intros Heq%bool_decide_unpack.
  - intros s. unfold delete_profiles. simpl. rewrite list_elem_of_filter.
    split.
    + intros [Hs Hin]. split; [done|]. intros Heq. apply Hs, bool_decide_pack.
      apply Hhere; [|done].
      destruct Hc as [_ _ _ _ _ _ _ Hfk _ _ _ _ _].
      by eapply Forall_forall in Hfk.
    + intros [Hin Hne]. split; [|done].
      intros Hg%bool_decide_unpack. by apply Hgone in Hg.
  - intros r. unfold delete_profiles. simpl. rewrite !list_elem_of_filter.
    split.
    + intros (Hu & Hs & Hin). split_and!; [done| |].
      * intros Heq. apply Hu, Hhere; [|done].
        destruct Hc as [_ _ _ _ _ _ _ _ Hfk _ _ _ _].
        by eapply Forall_forall in Hfk.
      * intros (s & Hsin & Hown & Hid). apply Hs, list_elem_of_fmap.
        exists s. split; [done|]. apply list_elem_of_filter. split; [|done].
        apply bool_decide_pack, Hhere; [|done].
        destruct Hc as [_ _ _ _ _ _ _ Hfk _ _ _ _ _].
        by eapply Forall_forall in Hfk.
    + intros (Hin & Hu & Hs). split_and!; [| |done].
      * intros Hg. by apply Hgone in Hg.
      * intros (s & Heq & [Hown%bool_decide_unpack Hsin]%list_elem_of_filter)%list_elem_of_fmap.
        apply Hs. exists s. split_and!; [done| |done]. by apply Hgone.
Qed.

Lemma delete_profile_cascades_witness :
  consistent sample_db ∧
  delete_profile 101 sample_db
  = {| auth_users := sample_accounts;
       profiles := [ursula; victor; alice; nadia];
       stores := [];
       ratings := [] |} ∧
  consistent (delete_profile 101 sample_db).
Proof.
  pose proof (reachable_consistent _ sample_db_reachable) as Hc.
  split; [exact Hc|]. split; [vm_compute; reflexivity|].
  apply (delete_profile_cascades sample_db 101 Hc).
Defined.

(** ** The provisioning trigger *)

Lemma default_name_passes : name_check default_name = true.
Proof. reflexivity. Qed.

Lemma cast_user_role_labels (t : text) :
  t ∉ ["admin"; "normal_user"; "store_owner"] →
  cast_user_role (Some t) = Err (invalid_text_representation "user_role").
Proof.
  intros Ht. unfold cast_user_role.
  repeat case_decide; try done; subst t; exfalso; apply Ht;
    repeat first [ apply list_elem_of_here | apply list_elem_of_further ].
Qed.

(** A registration whose role can be cast and whose name, given or the
    placeholder, passes the name CHECK adds the account and one profile. *)
Lemma registration_adds_profile
    (gen : uuid) (now : timestamptz) (NEW : account) (db : DB)
    (name : text) (role : option user_role) :
  consistent db →
  acct_id NEW ∉ acct_id <$> auth_users db →
  gen ∉ p_id <$> profiles db →
  COALESCE (arrow_text (raw_user_meta_data NEW) "name") default_name = name →
  name_check name = true →
  cast_user_role (arrow_text (raw_user_meta_data NEW) "role") = Ok role →
  transaction (insert_auth_user gen now NEW) db
  = (with_profiles
       (profiles db ++
          [{| p_id := gen; p_user_id := acct_id NEW; p_name := name;
              p_email := acct_email NEW; p_address := None;
              p_role := COALESCE role normal_user;
              p_created_at := now; p_updated_at := now |}])
       (with_auth_users (auth_users db ++ [NEW]) db),
     None).
Proof.
  intros Hc Hnew Hgen Hname Hck Hrole.
  unfold transaction, insert_auth_user, handle_new_user.
  rewrite Hname, Hrole. rewrite bool_decide_true by done. simpl.
  unfold insert_profile.
  assert (Hrow : profiles_row_check (profiles db)
            {| p_id := gen; p_user_id := acct_id NEW; p_name := name;
               p_email := acct_email NEW; p_address := None;
               p_role := COALESCE role normal_user;
               p_created_at := now; p_updated_at := now |} = Ok ()).
  { apply profiles_row_check_Ok. simpl. split_and!; [done..|].
    intros (p & Heq & Hp)%list_elem_of_fmap. apply Hnew. rewrite Heq.
    pose proof (fk_profiles_user_id db Hc) as Hfk.
    by eapply Forall_forall in Hfk. }
  simpl. rewrite Hrow. simpl.
  unfold profiles_fk. simpl. rewrite bool_decide_true; [done|].
  rewrite fmap_app, elem_of_app. right. apply list_elem_of_here.
Qed.

(** C5, as amended. The trigger adds exactly one profile for a new account.
    Its name is the placeholder when the metadata has no name, whatever the
    role; its role is [normal_user] when the metadata has no role, whatever
    the (well-sized) name.  A role that is not a label of the enum makes the
    cast raise, with or without a name: the registration is rolled back and
    no profile is created. *)
Theorem handle_new_user_defaults (gen : uuid) (now : timestamptz) (NEW : account) (db : DB) :
  consistent db →
  acct_id NEW ∉ acct_id <$> auth_users db →
  gen ∉ p_id <$> profiles db →
  let name := arrow_text (raw_user_meta_data NEW) "name" in
  let role := arrow_text (raw_user_meta_data NEW) "role" in
  let registered_as (n : text) (r : user_role) :=
    transaction (insert_auth_user gen now NEW) db
    = (with_profiles
         (profiles db ++
            [{| p_id := gen; p_user_id := acct_id NEW; p_name := n;
                p_email := acct_email NEW; p_address := None; p_role := r;
                p_created_at := now; p_updated_at := now |}])
         (with_auth_users (auth_users db ++ [NEW]) db),
       None) in
  (name = None →
     (role = None → registered_as default_name normal_user) ∧
     (∀ r, role = Some (role_label r) → registered_as default_name r)) ∧
  (role = None →
     ∀ n, name = Some n → 20 ≤ String.length n ≤ 60 → registered_as n normal_user) ∧
  (∀ t, role = Some t →
        t ∉ ["admin"; "normal_user"; "store_owner"] →
        transaction (insert_auth_user gen now NEW) db
        = (db, Some (invalid_text_representation "user_role"))).
Proof.
  intros Hc Hnew Hgen name role registered_as. subst registered_as. simpl.
  split_and!.
  - intros Hname. split.
    + intros Hrole.
      apply (registration_adds_profile gen now NEW db default_name None);
        try done; [by fold name; rewrite Hname | by fold role; rewrite Hrole].
    + intros r Hrole.
      apply (registration_adds_profile gen now NEW db default_name (Some r));
        try done; [by fold name; rewrite Hname|].
      fold role. rewrite Hrole. by destruct r.
  - intros Hrole n Hname Hlen.
    apply (registration_adds_profile gen now NEW db n None); try done.
    + fold name. by rewrite Hname.
    + by apply name_check_bounds.
    + fold role. by rewrite Hrole.
  - intros t Hrole Ht.
    unfold transaction, insert_auth_user, handle_new_user.
    fold role. rewrite Hrole, cast_user_role_labels by done.
    by rewrite bool_decide_true.
Qed.

Lemma handle_new_user_defaults_witness :
  consistent sample_db ∧
  (acct_id account_without_metadata ∉ acct_id <$> auth_users sample_db) ∧
  ((106%N : uuid) ∉ p_id <$> profiles sample_db) ∧
  ∃ p, transaction (insert_auth_user 106 9%Z account_without_metadata) sample_db
       = (with_profiles (profiles sample_db ++ [p])
            (with_auth_users (auth_users sample_db ++ [account_without_metadata]) sample_db),
          None) ∧
       p_name p = default_name ∧ p_role p = normal_user.
Proof.
  pose proof (reachable_consistent _ sample_db_reachable) as Hc.
  assert (H1 : acct_id account_without_metadata ∉ acct_id <$> auth_users sample_db).
  { vm_compute. intros H. apply list_elem_of_In in H. simpl in H. intuition discriminate. }
  assert (H2 : (106%N : uuid) ∉ p_id <$> profiles sample_db).
  { vm_compute. intros H. apply list_elem_of_In in H. simpl in H. intuition discriminate. }
  split; [exact Hc|]. split; [exact H1|]. split; [exact H2|].
  destruct (handle_new_user_defaults 106 9%Z account_without_metadata sample_db
              Hc H1 H2) as [Hname _].
  destruct (Hname eq_refl) as [Hok _].
  eexists. split; [exact (Hok eq_refl)|]. split; reflexivity.
Defined.

(** C5, as stated, fails: with a role outside the enum the trigger raises
    instead of falling back to [normal_user], and nothing is created. *)
Lemma unparseable_role_aborts_registration :
  transaction (insert_auth_user 101 0%Z account_with_unknown_role) empty_db
  = (empty_db, Some (invalid_text_representation "user_role")).
Proof. vm_compute. reflexivity. Qed.

(** C10. A new account whose metadata proposes a name shorter than 20 or
    longer than 60 characters is not registered: the transaction is rolled
    back, so neither the account nor a profile exists afterwards, and the
    placeholder name is not used.  The error is the violation of the name
    CHECK whenever the role in the metadata can be cast. *)
Theorem ill_sized_name_aborts_registration
    (gen : uuid) (now : timestamptz) (NEW : account) (db : DB) (name : text) :
  acct_id NEW ∉ acct_id <$> auth_users db →
  arrow_text (raw_user_meta_data NEW) "name" = Some name →
  String.length name < 20 ∨ 60 < String.length name →
  ∃ e, transaction (insert_auth_user gen now NEW) db = (db, Some e) ∧
       (is_ok (cast_user_role (arrow_text (raw_user_meta_data NEW) "role")) = true →
        e = check_violation "profiles_name_check").
Proof.
  intros Hnew Hname Hlen.
  assert (Hck : name_check name = false).
  { apply not_true_iff_false. rewrite name_check_bounds. lia. }
  unfold transaction, insert_auth_user, handle_new_user.
  rewrite bool_decide_true by done. simpl.
  destruct (cast_user_role _) as [role|e] eqn:Hcast; simpl.
  - rewrite Hname. unfold insert_profile, profiles_row_check. simpl.
    unfold COALESCE. simpl. rewrite Hck. simpl. by eexists.
  - exists e. split; [done|]. intros [=].
Qed.

Lemma ill_sized_name_aborts_registration_witness :
  (acct_id account_named_bob ∉ acct_id <$> auth_users sample_db) ∧
  arrow_text (raw_user_meta_data account_named_bob) "name" = Some "Bob" ∧
  String.length "Bob" < 20 ∧
  transaction (insert_auth_user 106 9%Z account_named_bob) sample_db
  = (sample_db, Some (check_violation "profiles_name_check")).
Proof.
  assert (H1 : acct_id account_named_bob ∉ acct_id <$> auth_users sample_db).
  { vm_compute. intros H. apply list_elem_of_In in H. simpl in H. intuition discriminate. }
  assert (H2 : String.length "Bob" < 20) by (simpl; lia).
  split; [exact H1|]. split; [reflexivity|]. split; [exact H2|].
  destruct (ill_sized_name_aborts_registration 106 9%Z account_named_bob sample_db "Bob"
              H1 eq_refl (or_introl H2)) as (e & He & Hname).
  rewrite He, Hname; reflexivity.
Defined.

(** ** Expansion of the policies on [profiles] *)

(** C3. Expanding the policies always ends, but not with a lookup: for a
    caller subject to row security, the sub-SELECT of "Admins can view all
    profiles" (and of "Admins can insert profiles") brings the rewriter
    back to [profiles] while [profiles] is being expanded, and the query is
    refused as an infinite recursion, whatever the fuel.  Only a caller
    exempt from row security gets through. *)
Theorem profiles_admin_policies_reenter_profiles :
  (∀ row_security rel cmd reads, is_Some (Rewriter.rewrite row_security rel cmd reads)) ∧
  (∀ fuel reads,
     Rewriter.fireRIRrules (S (S fuel)) true [] Rewriter.Profiles Rewriter.SELECT reads
     = Some (Err (invalid_object_definition "profiles")) ∧
     Rewriter.fireRIRrules (S (S fuel)) true [] Rewriter.Profiles Rewriter.INSERT reads
     = Some (Err (invalid_object_definition "profiles"))) ∧
  (∀ reads,
     Rewriter.rewrite false Rewriter.Profiles Rewriter.SELECT reads
     = Some (Ok {| Rewriter.securityQuals := []; Rewriter.withCheckOptions := [] |})).
Proof.
  split; [|split].
  - intros [] [] [] []; vm_compute; eauto.
  - intros fuel []; split; reflexivity.
  - intros reads. reflexivity.
Qed.

(** The same error reaches every table whose policies select from
    [profiles]: expanding them expands the policies of [profiles]. *)
Lemma policies_selecting_profiles_inherit_recursion
    (rel : Rewriter.relation) (cmd : Rewriter.command) (reads : bool) :
  Rewriter.get_row_security_policies rel cmd reads ≫= Rewriter.sublinks ≠ [] →
  Rewriter.rewrite true rel cmd reads = Some (Err (invalid_object_definition "profiles")).
Proof. destruct rel, cmd, reads; vm_compute; congruence. Qed.

(** Expansion as the data API sees it. *)
Lemma expand_exempt (rel : Rewriter.relation) (cmd : Rewriter.command) (reads : bool) :
  expand false rel cmd reads
  = Ok {| Rewriter.securityQuals := []; Rewriter.withCheckOptions := [] |}.
Proof. reflexivity. Qed.

Lemma expand_public_read (rel : Rewriter.relation) (reads : bool) :
  rel ≠ Rewriter.Profiles →
  expand true rel Rewriter.SELECT reads
  = Ok {| Rewriter.securityQuals := [[Rewriter.SecurityQual Rewriter.always []]];
          Rewriter.withCheckOptions := [] |}.
Proof. by destruct rel, reads. Qed.

(** ** Ratings with the rater's display fields *)

Lemma filter_key_unique {A K} `{EqDecision K} (key : A → K) (x : A) (l : list A) :
  NoDup (key <$> l) → x ∈ l → filter (λ y, key y = key x) l = [x].
Proof.
  induction l as [|y l IH]; [by intros _ ?%elem_of_nil|].
  rewrite fmap_cons, NoDup_cons. intros [Hy Hl] [->|Hx]%elem_of_cons.
  - rewrite filter_cons_True by done. f_equal.
    apply filter_none, Forall_forall. intros z Hz Heq.
    apply Hy, list_elem_of_fmap. by exists z.
  - rewrite filter_cons_False; [by apply IH|].
    intros Heq. apply Hy, list_elem_of_fmap. by exists x.
Qed.

(** With no security qual attached, every row is admitted. *)
Lemma admits_nil (uid : option uuid) (db : DB) (r : row) : admits uid db [] r = true.
Proof. done. Qed.

Lemma admits_always (uid : option uuid) (db : DB) (r : row) :
  admits uid db [[Rewriter.SecurityQual Rewriter.always []]] r = true.
Proof. done. Qed.

(** The query of [fetchRatings], for either kind of caller. *)
Lemma listRatingsForStore_refused (uid : option uuid) (sid : uuid) (db : DB) :
  listRatingsForStore true uid sid db = Err (invalid_object_definition "profiles").
Proof. reflexivity. Qed.

Lemma listRatingsForStore_exempt (uid : option uuid) (sid : uuid) (db : DB) :
  listRatingsForStore false uid sid db
  = Ok ((λ r, {| rw_id := r_id r; rw_rating := r_rating r; rw_created_at := r_created_at r;
                 rw_profiles :=
                   (λ p, (p_name p, p_email p)) <$>
                     head (filter (λ p, p_id p = r_user_id r) (profiles db)) |})
        <$> merge_sort newest_first (ratings_of sid db)).
Proof.
  unfold listRatingsForStore. rewrite !expand_exempt.
  unfold mbind, result_bind. cbn [Rewriter.securityQuals]. f_equal.
  assert (filter (λ r, admits uid db [] (rating_row r) ∧ r_store_id r = sid) (ratings db)
          = ratings_of sid db) as ->.
  { unfold ratings_of. apply list_filter_iff. intros r. rewrite admits_nil. simpl.
    split; [by intros [] | done]. }
  apply list_fmap_ext. intros i r _. f_equal. f_equal. f_equal.
  apply list_filter_iff. intros p. rewrite admits_nil. simpl.
  split; [by intros [] | done].
Qed.

(** C7. For a caller subject to row security the query of [fetchRatings]
    is refused as a whole: it embeds [profiles], whose policies cannot be
    expanded.  The store owner's dashboard therefore lists no rating and
    shows "Failed to fetch ratings".  Only for a caller exempt from row
    security does the query return the store's ratings, each with the
    rater's name and email. *)
Theorem fetchRatings_is_refused :
  (∀ uid sid db,
     listRatingsForStore true uid sid db = Err (invalid_object_definition "profiles")) ∧
  (∀ uid prof c db S,
     filter (λ s, s_owner_id s = p_id prof) (stores db) = [S] →
     fetchRatings true uid (Some prof) c db
     = so_toast (Toast "Error" "Failed to fetch ratings" true) c) ∧
  (∀ uid sid db,
     consistent db →
     ∃ l, listRatingsForStore false uid sid db = Ok l ∧
          rw_id <$> l ≡ₚ r_id <$> ratings_of sid db ∧
          ∀ r p,
            r ∈ ratings db → r_store_id r = sid →
            p ∈ profiles db → p_id p = r_user_id r →
            {| rw_id := r_id r; rw_rating := r_rating r; rw_created_at := r_created_at r;
               rw_profiles := Some (p_name p, p_email p) |} ∈ l).
Proof.
  split_and!.
  - intros uid sid db. apply listRatingsForStore_refused.
  - intros uid prof c db S HS. unfold fetchRatings, api_stores_of_owner.
    rewrite expand_public_read by done.
    unfold mbind, result_bind. cbn [Rewriter.securityQuals].
    assert (filter (λ s, admits uid db [[Rewriter.SecurityQual Rewriter.always []]]
                           (store_row s) ∧ s_owner_id s = p_id prof) (stores db)
            = [S]) as ->.
    { rewrite <- HS. apply list_filter_iff. intros s. rewrite admits_always. simpl.
      split; [by intros [] | done]. }
    by rewrite listRatingsForStore_refused.
  - intros uid sid db Hc. eexists. split; [apply listRatingsForStore_exempt|]. split.
    + rewrite <- list_fmap_compose.
      by rewrite (fmap_Permutation _ _ _ (merge_sort_Permutation newest_first _)).
    + intros r p Hr Hsid Hp Hid. apply list_elem_of_fmap. exists r. split.
      * f_equal. rewrite <- Hid.
        by rewrite (filter_key_unique p_id p (profiles db) (pk_profiles db Hc) Hp).
      * rewrite merge_sort_Permutation. by apply list_elem_of_filter.
Qed.

Lemma fetchRatings_is_refused_witness :
  filter (λ s, s_owner_id s = p_id olivia) (stores sample_db) = [corner_coffee] ∧
  fetchRatings true (Some 1%N) (Some olivia) empty_owner_dashboard sample_db
  = {| so_store := None; so_ratings := [];
       so_toasts := [Toast "Error" "Failed to fetch ratings" true] |} ∧
  consistent sample_db ∧
  ∃ l, listRatingsForStore false (Some 1%N) 201 sample_db = Ok l ∧
       {| rw_id := 301%N; rw_rating := 3%Z; rw_created_at := 2%Z;
          rw_profiles := Some ("Ursula User the Regular", "ursula@example.com") |} ∈ l.
Proof.
  pose proof (reachable_consistent _ sample_db_reachable) as Hc.
  destruct fetchRatings_is_refused as (_ & Hdash & Hexempt).
  assert (H1 : filter (λ s, s_owner_id s = p_id olivia) (stores sample_db) = [corner_coffee])
    by reflexivity.
  split; [exact H1|]. split.
  - exact (Hdash (Some 1%N) olivia empty_owner_dashboard sample_db corner_coffee H1).
  - split; [exact Hc|].
    destruct (Hexempt (Some 1%N) 201%N sample_db Hc) as (l & Hl & _ & Hrows).
    exists l. split; [exact Hl|].
    apply (Hrows (new_rating 301 2%Z 102 201 3%Z) ursula).
    + apply list_elem_of_here.
    + reflexivity.
    + apply list_elem_of_further, list_elem_of_here.
    + reflexivity.
Defined.

(** ** Submitting a rating *)

Lemma api_insert_rating_refused uid gen now user_id store_id score db :
  api_insert_rating true uid gen now user_id store_id score db
  = Err (invalid_object_definition "profiles").
Proof. reflexivity. Qed.

Lemma api_update_rating_refused uid now id score db :
  api_update_rating true uid now id score db = Err (invalid_object_definition "profiles").
Proof. reflexivity. Qed.

(** An insert that gets through adds the new row at the end and nothing
    else. *)
Lemma api_insert_rating_Ok rs uid gen now user_id store_id score db db' :
  api_insert_rating rs uid gen now user_id store_id score db = Ok db' →
  insert_rating (new_rating gen now user_id store_id score) db = Ok db' ∧
  db' = with_ratings (ratings db ++ [new_rating gen now user_id store_id score]) db.
Proof.
  intros H. unfold api_insert_rating in H. inv_ok.
  match goal with H : insert_rating _ _ = Ok _ |- _ => rename H into Hi end.
  split; [done|]. unfold insert_rating in Hi. by inv_ok.
Qed.

(** An update that gets through keeps every row in its place, with its id,
    its rater and its store, and leaves the rows with another id alone. *)
Lemma api_update_rating_Ok rs uid now id score db db' :
  api_update_rating rs uid now id score db = Ok db' →
  (∃ wc w, update_ratings wc w (set_rating_to score) now db = Ok db') ∧
  auth_users db' = auth_users db ∧ profiles db' = profiles db ∧ stores db' = stores db ∧
  r_id <$> ratings db' = r_id <$> ratings db ∧
  rating_key <$> ratings db' = rating_key <$> ratings db ∧
  ∀ r, r ∈ ratings db → r_id r ≠ id → r ∈ ratings db'.
Proof.
  intros H. unfold api_update_rating in H. apply bind_Ok in H as (x & _ & H).
  split; [by eauto|].
  unfold update_ratings in H. inv_ok. subst db'. simpl.
  match goal with H : update_rows _ _ _ _ _ = Ok _ |- _ => rename H into Hu end.
  split_and!; [done..| | |].
  - by eapply update_rows_fmap; [|exact Hu].
  - by eapply update_rows_fmap; [|exact Hu].
  - intros r Hr Hid. apply update_rows_Ok in Hu as ->. simpl.
    apply list_elem_of_fmap. exists r. split; [|done].
    by rewrite bool_decide_false.
Qed.





(** ** Rating a store twice *)

(** A submission by a caller subject to row security, from a dashboard that
    knows no rating for the store: the insert is refused. *)
Lemma rate_store_refused uid gen now st score c db prof :
  ud_profile c = Some prof →
  score ≠ 0%Z →
  (∀ r, r ∈ userRatings c → r_store_id r ≠ s_id (sr_store st)) →
  rate_store true uid gen now st score (c, db)
  = (ud_toast (Toast "Error" "Failed to submit rating" true)
       (setNewRating score (openRatingDialog st c)), db).
Proof.
  intros Hprof Hscore Hcache. unfold rate_store, handleSubmitRating. simpl.
  rewrite Hprof, decide_False by done.
  assert (list_find (λ r, r_store_id r = s_id (sr_store st)) (userRatings c) = None) as ->.
  { apply list_find_None, Forall_forall. exact Hcache. }
  reflexivity.
Qed.

(** C8. For a rater subject to row security, neither submission reaches
    the table: the insert of the 4 is refused while the INSERT policy on
    [ratings] is expanded, the dashboard still knows no rating for the
    store, so the 5 is sent as an insert too and refused the same way.  The
    table is as it was -- with no Rating row for (rater, X) if there was
    none -- and "Failed to submit rating" is shown twice. *)
Theorem rate_four_then_five_is_refused
    (uid : option uuid) (gen1 gen2 : uuid) (now1 now2 : timestamptz)
    (st : store_rating) (c : UserDashboard) (db : DB) (prof : profile) :
  ud_profile c = Some prof →
  (∀ r, r ∈ userRatings c → r_store_id r ≠ s_id (sr_store st)) →
  let s1 := rate_store true uid gen1 now1 st 4%Z (c, db) in
  let s2 := rate_store true uid gen2 now2 st 5%Z s1 in
  s2.2 = db ∧
  filter (λ r, rating_key r = (p_id prof, s_id (sr_store st))) (ratings s2.2)
  = filter (λ r, rating_key r = (p_id prof, s_id (sr_store st))) (ratings db) ∧
  userRatings s2.1 = userRatings c ∧
  ratingDialogOpen s2.1 = true ∧
  ud_toasts s2.1
  = ud_toasts c ++ [Toast "Error" "Failed to submit rating" true;
                    Toast "Error" "Failed to submit rating" true].
Proof.
  intros Hprof Hcache s1 s2. subst s2 s1.
  rewrite (rate_store_refused uid gen1 now1 st 4%Z c db prof) by done.
  rewrite (rate_store_refused uid gen2 now2 st 5%Z _ db prof) by done.
  simpl. split_and!; try done. by rewrite <- app_assoc.
Qed.

Lemma rate_four_then_five_is_refused_witness :
  ud_profile nadia_dashboard = Some nadia ∧
  filter (λ r, rating_key r = (105%N, 201%N))
    (ratings (rate_store true (Some 5%N) 399 10%Z corner_coffee_row 5%Z
                (rate_store true (Some 5%N) 398 9%Z corner_coffee_row 4%Z
                   (nadia_dashboard, sample_db))).2)
  = [].
Proof.
  split; [reflexivity|].
  destruct (rate_four_then_five_is_refused (Some 5%N) 398 399 9%Z 10%Z corner_coffee_row
              nadia_dashboard sample_db nadia eq_refl) as (_ & Hrows & _).
  - intros r Hr. by apply elem_of_nil in Hr.
  - exact Hrows.
Defined.

(** * Further properties *)

(** ** Invariants of the schema *)

(** X1. A stored score is always between 1 and 5.  An insert with any
    other score is refused before anything else is looked at and leaves the
    table as it was: by the column type when the score is no INTEGER, and
    by the CHECK on [rating] otherwise. *)
Theorem ratings_scores_in_range (db : DB) :
  reachable db →
  (∀ r, r ∈ ratings db → (1 ≤ r_rating r ≤ 5)%Z) ∧
  (∀ r, ¬ (1 ≤ r_rating r ≤ 5)%Z →
        transaction (insert_rating r) db
        = (db, Some (if int4_in (r_rating r)
                     then check_violation "ratings_rating_check"
                     else numeric_value_out_of_range "integer"))).
Proof.
  intros Hc%reachable_consistent. split.
  - intros r Hr. apply rating_check_bounds.
    pose proof (ck_ratings db Hc) as Hck. by eapply Forall_forall in Hck.
  - intros r Hr. unfold transaction, insert_rating, ratings_row_check.
    destruct (int4_in (r_rating r)); [|done]. simpl.
    assert (rating_check (r_rating r) = false) as ->; [|done].
    apply not_true_iff_false. by rewrite rating_check_bounds.
Qed.

Lemma ratings_scores_in_range_witness :
  reachable sample_db ∧
  (∀ r, r ∈ ratings sample_db → (1 ≤ r_rating r ≤ 5)%Z) ∧
  transaction (insert_rating (new_rating 399 9%Z 105 201 6%Z)) sample_db
  = (sample_db, Some (check_violation "ratings_rating_check")) ∧
  transaction (insert_rating (new_rating 399 9%Z 105 201 2147483648%Z)) sample_db
  = (sample_db, Some (numeric_value_out_of_range "integer")).
Proof.
  pose proof sample_db_reachable as Hr.
  destruct (ratings_scores_in_range sample_db Hr) as [H1 H2].
  split; [exact Hr|]. split; [exact H1|]. split.
  - apply (H2 (new_rating 399 9%Z 105 201 6%Z)). simpl. lia.
  - apply (H2 (new_rating 399 9%Z 105 201 2147483648%Z)). simpl. lia.
Defined.

(** X2. No reference dangles: every profile belongs to an account, every
    store to a profile, every rating to a profile and to a store. *)
Theorem references_resolve (db : DB) :
  reachable db →
  (∀ p, p ∈ profiles db → ∃ a, a ∈ auth_users db ∧ acct_id a = p_user_id p) ∧
  (∀ s, s ∈ stores db → ∃ p, p ∈ profiles db ∧ p_id p = s_owner_id s) ∧
  (∀ r, r ∈ ratings db →
        (∃ p, p ∈ profiles db ∧ p_id p = r_user_id r) ∧
        (∃ s, s ∈ stores db ∧ s_id s = r_store_id r)).
Proof.
  intros Hc%reachable_consistent. split_and!.
  - intros p Hp. pose proof (fk_profiles_user_id db Hc) as H.
    eapply Forall_forall in H; [|exact Hp].
    apply list_elem_of_fmap in H as (a & Ha & Hin). eauto.
  - intros s Hs. pose proof (fk_stores_owner_id db Hc) as H.
    eapply Forall_forall in H; [|exact Hs].
    apply list_elem_of_fmap in H as (p & Hp & Hin). eauto.
  - intros r Hr. split.
    + pose proof (fk_ratings_user_id db Hc) as H.
      eapply Forall_forall in H; [|exact Hr].
      apply list_elem_of_fmap in H as (p & Hp & Hin). eauto.
    + pose proof (fk_ratings_store_id db Hc) as H.
      eapply Forall_forall in H; [|exact Hr].
      apply list_elem_of_fmap in H as (s & Hs & Hin). eauto.
Qed.

Lemma references_resolve_witness :
  reachable sample_db ∧
  ∃ p, p ∈ profiles sample_db ∧ p_id p = s_owner_id corner_coffee.
Proof.
  pose proof sample_db_reachable as Hr.
  destruct (references_resolve sample_db Hr) as (_ & Hs & _).
  split; [exact Hr|]. apply Hs. apply list_elem_of_here.
Defined.

Lemma NoDup_fmap_eq {A K} (key : A → K) (l : list A) (x y : A) :
  NoDup (key <$> l) → x ∈ l → y ∈ l → key x = key y → x = y.
Proof.
  induction l as [|z l IH]; [by intros _ ?%elem_of_nil|].
  rewrite fmap_cons, NoDup_cons. intros [Hz Hl] Hx Hy Heq.
  apply elem_of_cons in Hx as [->|Hx]; apply elem_of_cons in Hy as [->|Hy].
  - done.
  - exfalso. apply Hz. rewrite Heq. by apply list_elem_of_fmap_2.
  - exfalso. apply Hz. rewrite <- Heq. by apply list_elem_of_fmap_2.
  - by apply IH.
Qed.

(** X3. Identifiers identify: an account has at most one profile, and no
    two profiles, stores or ratings share an id. *)
Theorem identifiers_are_unique (db : DB) :
  reachable db →
  (∀ p q, p ∈ profiles db → q ∈ profiles db → p_user_id p = p_user_id q → p = q) ∧
  (∀ p q, p ∈ profiles db → q ∈ profiles db → p_id p = p_id q → p = q) ∧
  (∀ s t, s ∈ stores db → t ∈ stores db → s_id s = s_id t → s = t) ∧
  (∀ r q, r ∈ ratings db → q ∈ ratings db → r_id r = r_id q → r = q).
Proof.
  intros Hc%reachable_consistent. split_and!; intros x y Hx Hy Heq.
  - eapply (NoDup_fmap_eq p_user_id); [apply Hc|done..].
  - eapply (NoDup_fmap_eq p_id); [apply Hc|done..].
  - eapply (NoDup_fmap_eq s_id); [apply Hc|done..].
  - eapply (NoDup_fmap_eq r_id); [apply Hc|done..].
Qed.

Lemma identifiers_are_unique_witness :
  reachable sample_db ∧
  ∀ p, p ∈ profiles sample_db → p_user_id p = 4%N → p = alice.
Proof.
  pose proof sample_db_reachable as Hr.
  destruct (identifiers_are_unique sample_db Hr) as (Hu & _).
  split; [exact Hr|]. intros p Hp Heq. apply Hu; [exact Hp| |exact Heq].
  do 3 apply list_elem_of_further. apply list_elem_of_here.
Defined.

(** ** The provisioning trigger, continued *)

Lemma insert_profile_validation_error p db e :
  insert_profile p db = Err e → is_validation_error e = true.
Proof.
  unfold insert_profile, profiles_row_check, profiles_fk, require, mbind, result_bind.
  repeat match goal with
    | |- context [bool_decide ?P] => destruct (bool_decide_reflect P)
    | |- context [if ?b then _ else _] => destruct b eqn:?
    end; intros [=]; by subst.
Qed.

(** X4. The trigger creates at most one profile per account: fired for an
    account that already has a profile it fails with a constraint violation,
    and an account that has just been registered cannot be registered a
    second time. *)
Theorem handle_new_user_not_twice
    (gen gen' : uuid) (now now' : timestamptz) (NEW : account) (db db1 : DB) :
  insert_auth_user gen now NEW db = Ok db1 →
  (∃ e, handle_new_user gen' now' NEW db1 = Err e ∧ is_validation_error e = true) ∧
  transaction (insert_auth_user gen' now' NEW) db1
  = (db1, Some (unique_violation "users_pkey")).
Proof.
  intros H. unfold insert_auth_user, handle_new_user in H. inv_ok.
  match goal with H : insert_profile ?p _ = _ |- _ =>
    unfold insert_profile in H; set (p0 := p) in * end.
  inv_ok. subst db1. split.
  - unfold handle_new_user.
    match goal with H : cast_user_role _ = Ok _ |- _ => rewrite H end. simpl.
    match goal with |- context [insert_profile ?p ?d] =>
      destruct (insert_profile p d) as [db2|e] eqn:E end.
    + exfalso. unfold insert_profile in E. inv_ok.
      match goal with H : profiles_row_check (profiles _) _ = Ok _ |- _ =>
        apply profiles_row_check_Ok in H as (_ & _ & _ & Hu) end.
      apply Hu. simpl. rewrite fmap_app, elem_of_app. right. apply list_elem_of_here.
    + exists e. split; [done|]. by eapply insert_profile_validation_error.
  - unfold transaction, insert_auth_user. simpl.
    rewrite bool_decide_false; [done|].
    intros Hn. apply Hn. rewrite fmap_app, elem_of_app. right. apply list_elem_of_here.
Qed.

Lemma handle_new_user_not_twice_witness :
  ∃ db1,
    insert_auth_user 106 9%Z account_without_metadata sample_db = Ok db1 ∧
    transaction (insert_auth_user 107 10%Z account_without_metadata) db1
    = (db1, Some (unique_violation "users_pkey")).
Proof.
  eexists. split.
  - vm_compute. reflexivity.
  - refine (proj2 (handle_new_user_not_twice 106 107 9%Z 10%Z
                     account_without_metadata sample_db _ _)).
    vm_compute. reflexivity.
Defined.

Lemma cast_user_role_label (role : user_role) :
  cast_user_role (Some (role_label role)) = Ok (Some role).
Proof. by destruct role. Qed.

(** X5. The trigger takes the name and the role from the metadata as they
    are: a name of 20 to 60 characters and a label of the enum give a
    profile with exactly that name and that role -- [admin] included -- and
    with no address. *)
Theorem handle_new_user_honours_metadata
    (gen : uuid) (now : timestamptz) (NEW : account) (db : DB)
    (name : text) (role : user_role) :
  consistent db →
  acct_id NEW ∉ acct_id <$> auth_users db →
  gen ∉ p_id <$> profiles db →
  arrow_text (raw_user_meta_data NEW) "name" = Some name →
  20 ≤ String.length name ≤ 60 →
  arrow_text (raw_user_meta_data NEW) "role" = Some (role_label role) →
  transaction (insert_auth_user gen now NEW) db
  = (with_profiles
       (profiles db ++
          [{| p_id := gen; p_user_id := acct_id NEW; p_name := name;
              p_email := acct_email NEW; p_address := None; p_role := role;
              p_created_at := now; p_updated_at := now |}])
       (with_auth_users (auth_users db ++ [NEW]) db),
     None).
Proof.
  intros Hc Hnew Hgen Hname Hlen Hrole.
  unfold transaction, insert_auth_user, handle_new_user.
  rewrite Hname, Hrole, cast_user_role_label.
  rewrite bool_decide_true by done. simpl. unfold COALESCE. simpl.
  unfold insert_profile.
  match goal with |- context [profiles_row_check ?l ?p] =>
    assert (profiles_row_check l p = Ok ()) as -> end.
  { apply profiles_row_check_Ok. simpl. split_and!; [by apply name_check_bounds|done..|].
    intros (p & Heq & Hp)%list_elem_of_fmap. apply Hnew. rewrite Heq.
    pose proof (fk_profiles_user_id db Hc) as Hfk. by eapply Forall_forall in Hfk. }
  simpl. unfold profiles_fk. simpl. rewrite bool_decide_true; [done|].
  rewrite fmap_app, elem_of_app. right. apply list_elem_of_here.
Qed.

Lemma handle_new_user_honours_metadata_witness :
  consistent sample_db ∧
  ∃ p, transaction (insert_auth_user 110 9%Z account_asking_admin) sample_db
       = (with_profiles (profiles sample_db ++ [p])
            (with_auth_users (auth_users sample_db ++ [account_asking_admin]) sample_db),
          None) ∧
       p_role p = admin ∧ p_name p = "Eve Example the Eager One".
Proof.
  pose proof (reachable_consistent _ sample_db_reachable) as Hc.
  split; [exact Hc|]. eexists. split.
  - apply (handle_new_user_honours_metadata 110 9%Z account_asking_admin sample_db
             "Eve Example the Eager One" admin Hc).
    + vm_compute. intros H. apply list_elem_of_In in H. simpl in H. intuition discriminate.
    + vm_compute. intros H. apply list_elem_of_In in H. simpl in H. intuition discriminate.
    + reflexivity.
    + simpl. lia.
    + reflexivity.
  - split; reflexivity.
Defined.

(** ** UPDATE and the [updated_at] trigger *)

(** X6. An UPDATE of ratings that succeeds touches no other table, keeps
    every row in its place with its [id] and [created_at], rewrites exactly
    the rows its WHERE selects, and stamps those with [updated_at = now()];
    the other rows are left as they were. *)
Theorem update_ratings_rewrites_in_place
    (with_check where_ : rating → bool) (u : rating_patch) (now : timestamptz)
    (db db' : DB) :
  update_ratings with_check where_ u now db = Ok db' →
  auth_users db' = auth_users db ∧ profiles db' = profiles db ∧ stores db' = stores db ∧
  length (ratings db') = length (ratings db) ∧
  ∀ i r, ratings db !! i = Some r →
    ∃ r', ratings db' !! i = Some r' ∧
          r_id r' = r_id r ∧ r_created_at r' = r_created_at r ∧
          (where_ r = true →
             r_updated_at r' = now ∧
             r_rating r' = default (r_rating r) (set_r_rating u)) ∧
          (where_ r = false → r' = r).
Proof.
  intros H. unfold update_ratings in H. inv_ok. subst db'. simpl.
  match goal with H : update_rows _ _ _ _ _ = Ok _ |- _ =>
    apply update_rows_Ok in H as -> end.
  simpl. split_and!; [done..| |].
  - by rewrite length_fmap.
  - intros i r Hi. rewrite list_lookup_fmap, Hi. simpl.
    eexists. split; [done|].
    destruct (where_ r); simpl; split_and!; try done.
Qed.

Lemma update_ratings_rewrites_in_place_witness :
  ∃ db',
    update_ratings (λ _, true) (λ r, bool_decide (r_id r = 302%N)) (set_rating_to 1) 20%Z
      sample_db = Ok db' ∧
    stores db' = stores sample_db ∧
    length (ratings db') = length (ratings sample_db).
Proof.
  exists (with_ratings
            [new_rating 301 2%Z 102 201 3%Z;
             {| r_id := 302%N; r_user_id := 103%N; r_store_id := 201%N;
                r_rating := 1%Z; r_created_at := 3%Z; r_updated_at := 20%Z |};
             new_rating 303 4%Z 104 201 4%Z] sample_db).
  assert (H : update_ratings (λ _, true) (λ r, bool_decide (r_id r = 302%N))
                (set_rating_to 1) 20%Z sample_db
              = Ok (with_ratings
                      [new_rating 301 2%Z 102 201 3%Z;
                       {| r_id := 302%N; r_user_id := 103%N; r_store_id := 201%N;
                          r_rating := 1%Z; r_created_at := 3%Z; r_updated_at := 20%Z |};
                       new_rating 303 4%Z 104 201 4%Z] sample_db))
    by (vm_compute; reflexivity).
  split; [exact H|].
  destruct (update_ratings_rewrites_in_place _ _ _ _ _ _ H) as (_ & _ & Hs & Hl & _).
  split; [exact Hs | exact Hl].
Defined.

(** ** Cascades, continued *)

Lemma elem_of_gone {A K} (key : A → K) (where_ : A → bool) (l : list A) (k : K) :
  k ∈ key <$> filter (λ x, where_ x) l ↔ ∃ x, x ∈ l ∧ where_ x = true ∧ key x = k.
Proof.
  rewrite list_elem_of_fmap. split.
  - intros (x & -> & [Hw Hx]%list_elem_of_filter). exists x.
    split_and!; [done| |done]. by apply Is_true_true.
  - intros (x & Hx & Hw & <-). exists x. split; [done|].
    apply list_elem_of_filter. split; [|done]. by apply Is_true_true.
Qed.

(** What a DELETE on [profiles] leaves, whatever its WHERE. *)
Lemma delete_profiles_rows (where_ : profile → bool) (db : DB) :
  let owned s := ∃ p, p ∈ profiles db ∧ where_ p = true ∧ p_id p = s_owner_id s in
  (∀ p, p ∈ profiles (delete_profiles where_ db) ↔ p ∈ profiles db ∧ where_ p = false) ∧
  (∀ s, s ∈ stores (delete_profiles where_ db) ↔ s ∈ stores db ∧ ¬ owned s) ∧
  (∀ r, r ∈ ratings (delete_profiles where_ db) ↔
        r ∈ ratings db ∧
        (¬ ∃ p, p ∈ profiles db ∧ where_ p = true ∧ p_id p = r_user_id r) ∧
        ¬ ∃ s, s ∈ stores db ∧ owned s ∧ s_id s = r_store_id r) ∧
  auth_users (delete_profiles where_ db) = auth_users db.
Proof.
  intros owned. unfold delete_profiles, delete_stores. simpl. split_and!; [| | |done].
  - intros p. rewrite list_elem_of_filter. split.
    + intros [Hw Hp]. split; [done|]. by apply negb_true_iff, Is_true_true, negb_prop_intro.
    + intros [Hp Hw]. split; [|done]. rewrite Hw. exact id.
  - intros s. rewrite list_elem_of_filter. split.
    + intros [Hw Hs]. split; [done|]. intros Ho. apply Hw, bool_decide_pack.
      by apply elem_of_gone.
    + intros [Hs Ho]. split; [|done]. intros Hw%bool_decide_unpack.
      by apply Ho, elem_of_gone.
  - intros r. rewrite !list_elem_of_filter. split.
    + intros (Hu & Hs & Hr). split_and!; [done| |].
      * intros Hp. by apply Hu, elem_of_gone.
      * intros (s & Hin & Ho & Hid). apply Hs, elem_of_gone.
        exists s. split_and!; [done| |done].
        apply bool_decide_eq_true. by apply elem_of_gone.
    + intros (Hr & Hu & Hs). split_and!; [| |done].
      * intros Hg%elem_of_gone. by apply Hu.
      * intros (s & Hin & Hw & Hid)%elem_of_gone. apply Hs.
        exists s. split_and!; [done| |done].
        apply bool_decide_eq_true in Hw. by apply elem_of_gone in Hw.
Qed.

(** X7. Deleting an account removes, in the same statement, its profile,
    the stores that profile owns, the ratings it gave and the ratings of
    those stores, and nothing else; the database stays consistent. *)
Theorem delete_account_cascades (db : DB) (id : uuid) :
  consistent db →
  let db' := delete_auth_users (λ a, bool_decide (acct_id a = id)) db in
  let owned s := ∃ p, p ∈ profiles db ∧ p_user_id p = id ∧ p_id p = s_owner_id s in
  (∀ a, a ∈ auth_users db' ↔ a ∈ auth_users db ∧ acct_id a ≠ id) ∧
  (∀ p, p ∈ profiles db' ↔ p ∈ profiles db ∧ p_user_id p ≠ id) ∧
  (∀ s, s ∈ stores db' ↔ s ∈ stores db ∧ ¬ owned s) ∧
  (∀ r, r ∈ ratings db' ↔
        r ∈ ratings db ∧
        (¬ ∃ p, p ∈ profiles db ∧ p_user_id p = id ∧ p_id p = r_user_id r) ∧
        ¬ ∃ s, s ∈ stores db ∧ owned s ∧ s_id s = r_store_id r) ∧
  consistent db'.
Proof.
  intros Hc db' owned.
  pose proof (delete_auth_users_consistent (λ a, bool_decide (acct_id a = id)) db Hc) as Hc'.
  set (w := λ p : profile,
         bool_decide (p_user_id p ∈
           acct_id <$> filter (λ a, bool_decide (acct_id a = id)) (auth_users db))).
  assert (Hw : ∀ p, p ∈ profiles db → w p = true ↔ p_user_id p = id).
  { intros p Hp. unfold w. rewrite bool_decide_eq_true, elem_of_gone. split.
    - intros (a & _ & Ha%bool_decide_eq_true & Heq). congruence.
    - intros Heq. pose proof (fk_profiles_user_id db Hc) as Hfk.
      eapply Forall_forall in Hfk; [|exact Hp].
      apply list_elem_of_fmap in Hfk as (a & Ha & Hin).
      exists a. split_and!; [done| |done]. apply bool_decide_eq_true. congruence. }
  assert (Hex : ∀ k, (∃ p, p ∈ profiles db ∧ w p = true ∧ p_id p = k) ↔
                     (∃ p, p ∈ profiles db ∧ p_user_id p = id ∧ p_id p = k)).
  { intros k. split; intros (p & Hp & Hwp & Hk); exists p;
      (split_and!; [done| |done]); by apply (Hw p Hp). }
  destruct (delete_profiles_rows w db) as (Hp & Hs & Hr & Ha).
  assert (Ea : auth_users db' = filter (λ a, ¬ bool_decide (acct_id a = id)) (auth_users db))
    by done.
  assert (Ep : profiles db' = profiles (delete_profiles w db)) by done.
  assert (Es : stores db' = stores (delete_profiles w db)) by done.
  assert (Er : ratings db' = ratings (delete_profiles w db)) by done.
  rewrite Ea, Ep, Es, Er. clear Ea Ep Es Er.
  split_and!; [| | | |done].
  - intros a. rewrite list_elem_of_filter. split.
    + intros [Hn Hin]. split; [done|]. intros Heq. by apply Hn, bool_decide_pack.
    + intros [Hin Hn]. split; [|done]. by intros Heq%bool_decide_unpack.
  - intros p. rewrite Hp. split.
    + intros [Hin Hf]. split; [done|]. intros Heq%(Hw p Hin). congruence.
    + intros [Hin Hn]. split; [done|]. apply not_true_iff_false. by rewrite (Hw p Hin).
  - intros s. rewrite Hs. unfold owned. by rewrite Hex.
  - intros r. rewrite Hr. unfold owned. rewrite Hex. split.
    + intros (Hin & Hu & Hst). split_and!; [done..|].
      intros (s & Hsin & Ho & Hid). apply Hst. exists s. by rewrite Hex.
    + intros (Hin & Hu & Hst). split_and!; [done..|].
      intros (s & Hsin & Ho & Hid). apply Hst. exists s. by rewrite <- Hex.
Qed.

Lemma delete_account_cascades_witness :
  consistent sample_db ∧
  delete_auth_users (λ a, bool_decide (acct_id a = 2%N)) sample_db
  = {| auth_users := filter (λ a, acct_id a ≠ 2%N) sample_accounts;
       profiles := [olivia; victor; alice; nadia];
       stores := [corner_coffee];
       ratings := [new_rating 302 3%Z 103 201 5%Z; new_rating 303 4%Z 104 201 4%Z] |} ∧
  consistent (delete_auth_users (λ a, bool_decide (acct_id a = 2%N)) sample_db).
Proof.
  pose proof (reachable_consistent _ sample_db_reachable) as Hc.
  split; [exact Hc|]. split; [vm_compute; reflexivity|].
  apply (delete_account_cascades sample_db 2 Hc).
Defined.

(** ** The aggregation view, continued *)

(** The rows of the view are the summary rows of the stores. *)
Lemma store_ratings_elem (db : DB) (row : store_rating) :
  NoDup (s_id <$> stores db) →
  row ∈ store_ratings db ↔ ∃ S, S ∈ stores db ∧ row = summary_row S (ratings db).
Proof.
  intros Hpk. split.
  - unfold store_ratings, group_by.
    intros (g & -> & (k & -> & Hk)%list_elem_of_fmap)%list_elem_of_fmap.
    apply (proj1 (elem_of_remove_dups _ _)), left_join_fst in Hk. exists k. split; [done|]. simpl.
    unfold summary_row. apply NoDup_fmap_1 in Hpk.
    by rewrite (group_of_store k (stores db) (ratings db) Hpk Hk).
  - intros (S & HS & ->). by apply store_ratings_row.
Qed.

Lemma store_ratings_NoDup (db : DB) : NoDup (store_ratings db).
Proof.
  unfold store_ratings, group_by. rewrite <- list_fmap_compose.
  apply NoDup_fmap_2_strong; [|apply NoDup_remove_dups].
  intros x y _ _ Heq. by injection Heq.
Qed.

Lemma store_ratings_Permutation (db : DB) :
  NoDup (s_id <$> stores db) →
  store_ratings db ≡ₚ (λ S, summary_row S (ratings db)) <$> stores db.
Proof.
  intros Hpk. apply NoDup_Permutation.
  - apply store_ratings_NoDup.
  - apply NoDup_fmap_2_strong; [|by apply NoDup_fmap_1 in Hpk].
    intros x y _ _ Heq. by injection Heq.
  - intros row. rewrite store_ratings_elem by done. rewrite list_elem_of_fmap.
    split; intros (S & ? & ?); by exists S.
Qed.

Lemma summary_row_total (S : store) (db : DB) :
  total_ratings (summary_row S (ratings db)) = totalRatings (s_id S) db.
Proof.
  simpl. unfold COUNT, totalRatings. by rewrite non_null_column_joined, length_fmap.
Qed.

(** The average of a summary row: 0 without ratings, otherwise the sum of
    the scores divided by their number as [numeric]s. *)
Lemma summary_row_average (S : store) (db : DB) :
  average_rating (summary_row S (ratings db))
  = match r_rating <$> ratings_of (s_id S) db with
    | [] => 0%Q
    | scores => numeric_div (SUM scores) (Z.of_nat (length scores))
    end.
Proof.
  simpl. unfold AVG. rewrite non_null_column_joined.
  by destruct (r_rating <$> ratings_of (s_id S) db).
Qed.

(** In a consistent database the average of a summary row is within 5e-17
    of the arithmetic mean of the store's scores. *)
Lemma summary_row_close_to_mean (S : store) (db : DB) :
  consistent db →
  (Qabs (average_rating (summary_row S (ratings db)) - averageRating (s_id S) db)
   <= 5 # 100000000000000000)%Q.
Proof.
  intros Hc. simpl. unfold averageRating.
  pose proof (scores_of_store_in_range db (s_id S) Hc) as Hscores.
  pose proof (SUM_bounds _ Hscores) as Hsum.
  destruct (ratings_of (s_id S) db) as [|r rs] eqn:E.
  - rewrite COALESCE_AVG_none by (by rewrite non_null_column_joined, E). done.
  - rewrite <- E in *.
    eapply Qle_trans.
    + rewrite <- (non_null_column_joined r_rating S db).
      apply COALESCE_AVG_mean. rewrite non_null_column_joined. lia.
    + rewrite non_null_column_joined. apply half_ulp_16.
      apply select_div_scale_scores; [|lia].
      rewrite E. simpl. lia.
Qed.

(** X11. The view lists the stores, each once and nothing else. *)
Theorem store_ratings_lists_the_stores (db : DB) :
  NoDup (s_id <$> stores db) →
  sr_store <$> store_ratings db ≡ₚ stores db.
Proof.
  intros Hpk. rewrite (store_ratings_Permutation db Hpk).
  rewrite <- list_fmap_compose. by rewrite list_fmap_id.
Qed.

Lemma store_ratings_lists_the_stores_witness :
  NoDup (s_id <$> stores sample_db) ∧
  sr_store <$> store_ratings sample_db ≡ₚ [corner_coffee].
Proof.
  assert (H : NoDup (s_id <$> stores sample_db)) by apply NoDup_singleton.
  split; [exact H|]. exact (store_ratings_lists_the_stores sample_db H).
Defined.

(** Rounding keeps the quotient of a sum of scores between 1 and 5. *)
Lemma numeric_div_scores (n d : Z) :
  (0 < d)%Z → (d ≤ n ≤ 5 * d)%Z → (1 <= numeric_div n d <= 5)%Q.
Proof.
  intros Hd Hn.
  destruct (numeric_div_nearest n d ltac:(lia) Hd) as (m & -> & Hm & Hlo & Hhi).
  pose proof (scale_pos n d) as HP.
  set (P := (10 ^ select_div_scale n d)%Z) in *.
  unfold Qle. simpl. rewrite Z2Pos.id by done. split; nia.
Qed.

(** X10. In a consistent database a store without ratings shows average 0
    and count 0, and a store with ratings shows a positive count and an
    average between 1 and 5. *)
Theorem store_ratings_average_in_range (db : DB) (row : store_rating) :
  consistent db →
  row ∈ store_ratings db →
  (total_ratings row = 0%Z ∧ (average_rating row == 0)%Q) ∨
  ((0 < total_ratings row)%Z ∧ (1 <= average_rating row <= 5)%Q).
Proof.
  intros Hc (S & HS & ->)%store_ratings_elem; [|apply Hc].
  rewrite summary_row_total, summary_row_average.
  unfold totalRatings.
  rewrite <- (length_fmap r_rating (ratings_of (s_id S) db)).
  pose proof (scores_of_store_in_range db (s_id S) Hc) as Hscores.
  pose proof (SUM_bounds _ Hscores) as Hsum.
  destruct (r_rating <$> ratings_of (s_id S) db) as [|x xs].
  - left. done.
  - right. split; [simpl; lia|].
    apply numeric_div_scores; [simpl length|]; lia.
Qed.

Lemma store_ratings_average_in_range_witness :
  consistent sample_db ∧
  summary_row corner_coffee sample_ratings ∈ store_ratings sample_db ∧
  ((0 < total_ratings (summary_row corner_coffee sample_ratings))%Z ∧
   (1 <= average_rating (summary_row corner_coffee sample_ratings) <= 5)%Q).
Proof.
  pose proof (reachable_consistent _ sample_db_reachable) as Hc.
  assert (Hin : summary_row corner_coffee sample_ratings ∈ store_ratings sample_db)
    by (vm_compute; apply list_elem_of_here).
  split; [exact Hc|]. split; [exact Hin|].
  destruct (store_ratings_average_in_range sample_db _ Hc Hin)
    as [[H0 _]|H]; [discriminate H0 | exact H].
Defined.

Lemma SUM_Permutation (l k : list Z) : l ≡ₚ k → SUM l = SUM k.
Proof. unfold SUM. induction 1; simpl in *; lia. Qed.

Lemma SUM_pointwise {A} (f g : A → Z) (l : list A) :
  SUM ((λ x, (f x + g x)%Z) <$> l) = (SUM (f <$> l) + SUM (g <$> l))%Z.
Proof.
  unfold SUM. induction l as [|x l IH]; [done|].
  rewrite !fmap_cons. cbn [foldr]. lia.
Qed.

Lemma SUM_cons (x : Z) (l : list Z) : SUM (x :: l) = (x + SUM l)%Z.
Proof. done. Qed.

Lemma SUM_indicator_absent {A K} `{EqDecision K} (key : A → K) (k : K) (l : list A) :
  k ∉ key <$> l →
  SUM ((λ x, if decide (key x = k) then 1%Z else 0%Z) <$> l) = 0%Z.
Proof.
  induction l as [|x l IH]; [done|].
  rewrite !fmap_cons, not_elem_of_cons, SUM_cons. intros [Hx Hl].
  rewrite decide_False by done. by rewrite IH.
Qed.

Lemma SUM_indicator {A K} `{EqDecision K} (key : A → K) (k : K) (l : list A) :
  NoDup (key <$> l) → k ∈ key <$> l →
  SUM ((λ x, if decide (key x = k) then 1%Z else 0%Z) <$> l) = 1%Z.
Proof.
  induction l as [|x l IH]; [by intros _ ?%elem_of_nil|].
  rewrite !fmap_cons, NoDup_cons, SUM_cons. intros [Hx Hl] Hk.
  destruct (decide (key x = k)) as [<-|Hne].
  - by rewrite SUM_indicator_absent.
  - apply elem_of_cons in Hk as [?|Hk]; [done|]. by rewrite IH.
Qed.

Lemma ratings_per_store_add_up (ss : list store) (rs : list rating) :
  NoDup (s_id <$> ss) →
  Forall (λ r, r_store_id r ∈ s_id <$> ss) rs →
  SUM ((λ S, Z.of_nat (length (filter (λ r, r_store_id r = s_id S) rs))) <$> ss)
  = Z.of_nat (length rs).
Proof.
  intros Hpk. induction 1 as [|r rs Hr _ IH].
  - clear Hpk. induction ss as [|S ss IHs]; [done|].
    rewrite fmap_cons, SUM_cons, IHs. done.
  - rewrite <- (list_fmap_ext
         (λ S, ((if decide (s_id S = r_store_id r) then 1 else 0)
                + Z.of_nat (length (filter (λ r0, r_store_id r0 = s_id S) rs)))%Z)).
    + rewrite SUM_pointwise, IH, SUM_indicator by done. simpl length. lia.
    + intros i S _. simpl. destruct (decide (s_id S = r_store_id r)) as [Heq|Hne].
      * rewrite filter_cons_True by done. simpl length. lia.
      * rewrite filter_cons_False by (intros ?; by apply Hne). lia.
Qed.

(** X12. The review counts of the stores add up to the number of ratings:
    in a consistent database every rating is counted for exactly one
    store. *)
Theorem store_ratings_totals_add_up (db : DB) :
  consistent db →
  SUM (total_ratings <$> store_ratings db) = Z.of_nat (length (ratings db)).
Proof.
  intros Hc.
  rewrite (SUM_Permutation _ _
             (fmap_Permutation total_ratings _ _
                (store_ratings_Permutation db (pk_stores db Hc)))).
  rewrite <- list_fmap_compose.
  rewrite <- (ratings_per_store_add_up (stores db) (ratings db));
    [|apply Hc|apply Hc].
  f_equal. apply list_fmap_ext. intros i S _. simpl.
  apply (summary_row_total S db).
Qed.

Lemma store_ratings_totals_add_up_witness :
  consistent sample_db ∧
  SUM (total_ratings <$> store_ratings sample_db) = 3%Z.
Proof.
  pose proof (reachable_consistent _ sample_db_reachable) as Hc.
  split; [exact Hc|]. rewrite (store_ratings_totals_add_up sample_db Hc). reflexivity.
Defined.

Lemma joined_rows_filter (S : store) (P : rating → Prop) `{∀ r, Decision (P r)}
    (rs : list rating) :
  (∀ r, r ∈ rs → s_id S = r_store_id r → P r) →
  joined_rows S (filter P rs) = joined_rows S rs.
Proof.
  intros HP. unfold joined_rows.
  assert (filter (λ r, s_id S = r_store_id r) (filter P rs)
          = filter (λ r, s_id S = r_store_id r) rs) as ->; [|done].
  rewrite list_filter_filter. induction rs as [|r rs IH]; [done|].
  rewrite !filter_cons.
  destruct (decide (s_id S = r_store_id r)) as [Heq|Hne].
  - rewrite decide_True by (split; [done|]; apply HP; [apply list_elem_of_here|done]).
    f_equal. apply IH. intros r' Hr'. apply HP. by apply list_elem_of_further.
  - rewrite decide_False by (by intros [? _]).
    apply IH. intros r' Hr'. apply HP. by apply list_elem_of_further.
Qed.

(** X8. Deleting a store removes its row from the view and changes no other
    row: the other stores keep their averages and counts. *)
Theorem delete_store_drops_its_summary (db : DB) (X : uuid) (row : store_rating) :
  consistent db →
  row ∈ store_ratings (delete_stores (λ s, bool_decide (s_id s = X)) db) ↔
  row ∈ store_ratings db ∧ s_id (sr_store row) ≠ X.
Proof.
  intros Hc.
  pose proof (delete_stores_consistent (λ s, bool_decide (s_id s = X)) db Hc) as Hc'.
  rewrite (store_ratings_elem _ row (pk_stores _ Hc')).
  rewrite (store_ratings_elem _ row (pk_stores _ Hc)).
  assert (Hj : ∀ S, s_id S ≠ X →
            summary_row S (ratings (delete_stores (λ s, bool_decide (s_id s = X)) db))
            = summary_row S (ratings db)).
  { intros S HS. unfold summary_row. simpl ratings.
    rewrite joined_rows_filter; [done|].
    intros r _ Heq (s & Hs & [Hw%bool_decide_unpack _]%list_elem_of_filter)%list_elem_of_fmap.
    congruence. }
  simpl stores. split.
  - intros (S & [Hw HS]%list_elem_of_filter & ->).
    assert (s_id S ≠ X) by (intros Heq; by apply Hw, bool_decide_pack).
    rewrite Hj by done. split; [by exists S | done].
  - intros [(S & HS & ->) Hne]. simpl in Hne. exists S. split.
    + apply list_elem_of_filter. split; [|done]. by intros Hw%bool_decide_unpack.
    + by rewrite Hj.
Qed.

Lemma delete_store_drops_its_summary_witness :
  consistent sample_db ∧
  ∀ row, row ∈ store_ratings (delete_stores (λ s, bool_decide (s_id s = 201%N)) sample_db)
         → s_id (sr_store row) ≠ 201%N.
Proof.
  pose proof (reachable_consistent _ sample_db_reachable) as Hc.
  split; [exact Hc|]. intros row Hrow.
  by apply (delete_store_drops_its_summary sample_db 201 row Hc) in Hrow as [_ Hne].
Defined.

(** X9. A rating that is inserted changes the summary of its own store
    only: that store's count grows by one and its average becomes the mean
    of the earlier scores and the new one, rounded as [numeric] division
    rounds it (within 5e-17); every other row of the view is the same as
    before. *)
Theorem insert_rating_moves_one_summary (db db' : DB) (r : rating) :
  consistent db →
  insert_rating r db = Ok db' →
  (∀ row, s_id (sr_store row) ≠ r_store_id r →
          row ∈ store_ratings db' ↔ row ∈ store_ratings db) ∧
  ∃ row, row ∈ store_ratings db' ∧
         s_id (sr_store row) = r_store_id r ∧
         total_ratings row = (totalRatings (r_store_id r) db + 1)%Z ∧
         (Qabs (average_rating row
                - mean ((r_rating <$> ratings_of (r_store_id r) db) ++ [r_rating r]))
          <= 5 # 100000000000000000)%Q.
Proof.
  intros Hc Hins.
  pose proof (insert_rating_consistent r db db' Hc Hins) as Hc'.
  unfold insert_rating in Hins. inv_ok. subst db'.
  match goal with H : ratings_fk _ _ = _ |- _ => apply ratings_fk_Ok in H as [_ Hfk] end.
  split.
  - intros row Hne.
    rewrite (store_ratings_elem _ row (pk_stores _ Hc')).
    rewrite (store_ratings_elem _ row (pk_stores _ Hc)). simpl stores. simpl ratings.
    assert (Hj : ∀ S, s_id S ≠ r_store_id r →
              summary_row S (ratings db ++ [r]) = summary_row S (ratings db)).
    { intros S HS. unfold summary_row, joined_rows.
      rewrite filter_app, (filter_cons_False _ r) by done.
      by rewrite filter_nil, app_nil_r. }
    split; intros (S & HS & ->); simpl in Hne; exists S; (split; [done|]);
      by rewrite Hj.
  - apply list_elem_of_fmap in Hfk as (S & HS & HSin).
    set (db1 := with_ratings (ratings db ++ [r]) db) in *.
    exists (summary_row S (ratings db1)). split_and!.
    + apply (store_ratings_elem _ _ (pk_stores _ Hc')). by exists S.
    + simpl. done.
    + rewrite (summary_row_total S db1).
      unfold totalRatings, ratings_of. simpl ratings.
      rewrite filter_app, (filter_cons_True _ r) by done.
      rewrite filter_nil, length_app, <- HS. simpl. lia.
    + pose proof (summary_row_close_to_mean S db1 Hc') as Hclose.
      unfold averageRating, ratings_of in Hclose. simpl ratings in Hclose.
      rewrite filter_app, (filter_cons_True _ r) in Hclose by done.
      by rewrite filter_nil, fmap_app, <- HS in Hclose.
Qed.

Lemma insert_rating_moves_one_summary_witness :
  consistent sample_db ∧
  ∃ db', insert_rating (new_rating 304 10%Z 105 201 5%Z) sample_db = Ok db' ∧
         ∃ row, row ∈ store_ratings db' ∧ total_ratings row = 4%Z ∧
                (Qabs (average_rating row - (17 # 4)) <= 5 # 100000000000000000)%Q.
Proof.
  pose proof (reachable_consistent _ sample_db_reachable) as Hc.
  split; [exact Hc|].
  assert (H : insert_rating (new_rating 304 10%Z 105 201 5%Z) sample_db
              = Ok (with_ratings (sample_ratings ++ [new_rating 304 10%Z 105 201 5%Z])
                      sample_db)) by (vm_compute; reflexivity).
  eexists. split; [exact H|].
  destruct (insert_rating_moves_one_summary sample_db _ _ Hc H)
    as (_ & row & Hin & _ & Htot & Havg).
  exists row. split; [exact Hin|]. split.
  - rewrite Htot. reflexivity.
  - exact Havg.
Defined.

(** ** The rating dialog *)

(** X15. When the dashboard remembers a rating for the store, the
    submission of a caller subject to row security is an update, and it is
    refused while the UPDATE policy on [ratings] is expanded: "Failed to
    update rating" is shown, the dialog stays as it is, and no row changes
    -- whether or not the remembered rating is still in the table. *)
Theorem remembered_rating_update_is_refused
    (uid : option uuid) (gen : uuid) (now : timestamptz)
    (c : UserDashboard) (db : DB) (st : store_rating) (prof : profile)
    (i : nat) (existing : rating) :
  selectedStore c = Some st →
  ud_profile c = Some prof →
  newRating c ≠ 0%Z →
  list_find (λ r, r_store_id r = s_id (sr_store st)) (userRatings c) = Some (i, existing) →
  handleSubmitRating true uid gen now c db
  = (ud_toast (Toast "Error" "Failed to update rating" true) c, db).
Proof.
  intros Hst Hprof Hscore Hfind. unfold handleSubmitRating.
  rewrite Hst, Hprof, decide_False by done. rewrite Hfind.
  cbn [fmap option_fmap option_map snd].
  by rewrite api_update_rating_refused.
Qed.

Lemma remembered_rating_update_is_refused_witness :
  newRating remembering_dashboard ≠ 0%Z ∧
  handleSubmitRating true (Some 2%N) 399 20%Z remembering_dashboard sample_db
  = (ud_toast (Toast "Error" "Failed to update rating" true) remembering_dashboard,
     sample_db).
Proof.
  assert (H : newRating remembering_dashboard ≠ 0%Z) by discriminate.
  split; [exact H|].
  exact (remembered_rating_update_is_refused (Some 2%N) 399 20%Z remembering_dashboard
           sample_db corner_coffee_row ursula 0 (new_rating 301 2%Z 102 201 3%Z)
           eq_refl eq_refl H eq_refl).
Defined.


(** X16. Submitting a rating never touches accounts, profiles or stores and
    never removes a rating or moves one to another rater or store: the
    ratings either keep their ids and (rater, store) pairs, or gain one new
    row whose id is the generated one.  A consistent database stays
    consistent. *)
Theorem handleSubmitRating_touches_only_ratings
    (row_security : bool) (uid : option uuid) (gen : uuid) (now : timestamptz)
    (c : UserDashboard) (db : DB) :
  consistent db →
  let db' := (handleSubmitRating row_security uid gen now c db).2 in
  consistent db' ∧
  auth_users db' = auth_users db ∧ profiles db' = profiles db ∧ stores db' = stores db ∧
  ((r_id <$> ratings db' = r_id <$> ratings db ∧
    rating_key <$> ratings db' = rating_key <$> ratings db) ∨
   (∃ r, ratings db' = ratings db ++ [r] ∧ r_id r = gen)).
Proof.
  intros Hc. unfold handleSubmitRating.
  destruct (selectedStore c) as [st|]; [|by simpl; auto 10].
  destruct (ud_profile c) as [prof|]; [|by simpl; auto 10].
  destruct (decide (newRating c = 0%Z)); [by simpl; auto 10|].
  destruct (list_find _ (userRatings c)) as [[i existing]|]; simpl.
  - destruct (api_update_rating _ _ _ _ _ _) as [db'|e] eqn:E; simpl; [|by auto 10].
    apply api_update_rating_Ok in E as ((wc & w & Hu) & ? & ? & ? & ? & ? & _).
    split_and!; [|done..|by left].
    by eapply update_ratings_consistent.
  - destruct (api_insert_rating _ _ _ _ _ _ _ _) as [db'|e] eqn:E; simpl; [|by auto 10].
    apply api_insert_rating_Ok in E as [Hi ->].
    split_and!; [|done..|].
    + by eapply insert_rating_consistent.
    + right. by eexists.
Qed.

Lemma handleSubmitRating_touches_only_ratings_witness :
  consistent sample_db ∧
  profiles (handleSubmitRating false (Some 2%N) 399 20%Z remembering_dashboard sample_db).2
  = profiles sample_db ∧
  r_id <$> ratings (handleSubmitRating false (Some 2%N) 399 20%Z
                      remembering_dashboard sample_db).2
  = [301%N; 302%N; 303%N].
Proof.
  pose proof (reachable_consistent _ sample_db_reachable) as Hc.
  split; [exact Hc|].
  destruct (handleSubmitRating_touches_only_ratings false (Some 2%N) 399 20%Z
              remembering_dashboard sample_db Hc) as (_ & _ & Hp & _ & _).
  split; [exact Hp|]. vm_compute. reflexivity.
Defined.


(** ** The rating flow of a caller exempt from row security *)

Lemma update_rows_last {A} (where_ : A → bool) (set : A → A) chk (done l : list A) (x : A) :
  Forall (λ r, where_ r = false) l → where_ x = true →
  update_rows where_ set chk done (l ++ [x])
  = (chk (done ++ l) (set x);; Ok (done ++ l ++ [set x])).
Proof.
  intros Hl Hx. revert done. induction Hl as [|r l Hr _ IH]; intros done; simpl.
  - rewrite Hx, !app_nil_r. done.
  - rewrite Hr, IH, <- !app_assoc. done.
Qed.

Lemma filter_snoc_one {A} (P : A → Prop) `{∀ x, Decision (P x)} (l : list A) (x : A) :
  Forall (λ r, ¬ P r) l → P x → filter P (l ++ [x]) = [x].
Proof.
  intros Hl Hx. rewrite filter_app, filter_none by done.
  by rewrite filter_cons_True.
Qed.

Lemma api_ratings_of_user_exempt (uid : option uuid) (user_id : uuid) (db : DB) :
  api_ratings_of_user false uid user_id db
  = Ok (filter (λ r, r_user_id r = user_id) (ratings db)).
Proof.
  unfold api_ratings_of_user. rewrite expand_exempt.
  unfold mbind, result_bind. cbn [Rewriter.securityQuals]. f_equal.
  apply list_filter_iff. intros r. rewrite admits_nil. simpl.
  split; [by intros [] | done].
Qed.

Lemma fetchData_exempt (uid : option uuid) (db : DB) (c : UserDashboard) (prof : profile) :
  ud_profile c = Some prof →
  ud_profile (fetchData false uid db c) = Some prof ∧
  userRatings (fetchData false uid db c)
  = filter (λ r, r_user_id r = p_id prof) (ratings db).
Proof.
  intros Hp. unfold fetchData. rewrite Hp. unfold fetchUserRatings.
  change (ud_profile (fetchStores db c)) with (ud_profile c).
  rewrite Hp, api_ratings_of_user_exempt. by split.
Qed.

(** The first submission for a store the rater has not rated: an insert. *)
Lemma rate_store_insert uid gen now st score c db prof :
  consistent db → prof ∈ profiles db →
  sr_store st ∈ stores db →
  ud_profile c = Some prof →
  userRatings c = filter (λ r, r_user_id r = p_id prof) (ratings db) →
  (∀ r, r ∈ ratings db → rating_key r ≠ (p_id prof, s_id (sr_store st))) →
  gen ∉ r_id <$> ratings db →
  rating_check score = true →
  let db1 := with_ratings
               (ratings db ++ [new_rating gen now (p_id prof) (s_id (sr_store st)) score]) db in
  ∃ c1, rate_store false uid gen now st score (c, db) = (c1, db1) ∧
        ud_profile c1 = Some prof ∧
        userRatings c1 = filter (λ r, r_user_id r = p_id prof) (ratings db1) ∧
        consistent db1.
Proof.
  intros Hc Hprof Hst Hcp Hcache Hnone Hgen Hscore db1.
  assert (Hne : score ≠ 0%Z) by (intros ->; done).
  assert (Hins : insert_rating (new_rating gen now (p_id prof) (s_id (sr_store st)) score) db
                 = Ok db1).
  { unfold insert_rating. simpl r_rating. rewrite (rating_check_int4 _ Hscore).
    assert (ratings_row_check (ratings db)
              (new_rating gen now (p_id prof) (s_id (sr_store st)) score) = Ok ()) as Hrow.
    { apply ratings_row_check_Ok. split_and!; [done..|].
      intros (r & Hk & Hr)%list_elem_of_fmap. by apply (Hnone r Hr). }
    assert (ratings_fk db (new_rating gen now (p_id prof) (s_id (sr_store st)) score)
            = Ok ()) as Hfk.
    { apply ratings_fk_Ok. simpl. split; apply list_elem_of_fmap; eauto. }
    simpl. rewrite Hrow. simpl. by rewrite Hfk. }
  assert (Hapi : api_insert_rating false uid gen now (p_id prof) (s_id (sr_store st)) score db
                 = Ok db1).
  { unfold api_insert_rating. rewrite expand_exempt.
    unfold mbind, result_bind. cbn [Rewriter.withCheckOptions].
    rewrite (rating_check_int4 _ Hscore), admits_nil. simpl. exact Hins. }
  unfold rate_store, handleSubmitRating. simpl.
  rewrite Hcp. rewrite decide_False by done.
  assert (list_find (λ r, r_store_id r = s_id (sr_store st)) (userRatings c) = None) as ->.
  { apply list_find_None, Forall_forall. rewrite Hcache.
    intros r [Hu Hr]%list_elem_of_filter Hs.
    apply (Hnone r Hr). unfold rating_key. by rewrite Hu, Hs. }
  cbn [fmap option_fmap option_map]. rewrite Hapi.
  eexists. split; [reflexivity|].
  destruct (fetchData_exempt uid db1
              (setRatingDialogOpen false
                 (ud_toast (Toast "Success" "Rating submitted successfully" false)
                    (setNewRating score (openRatingDialog st c)))) prof Hcp) as [H1 H2].
  split_and!; [exact H1 | exact H2 | by eapply insert_rating_consistent].
Qed.

(** A later submission for the store just rated: an update of that row. *)
Lemma rate_store_update uid gen now st score c db prof l e :
  consistent db → prof ∈ profiles db →
  ud_profile c = Some prof →
  userRatings c = filter (λ r, r_user_id r = p_id prof) (ratings db) →
  ratings db = l ++ [e] →
  rating_key e = (p_id prof, s_id (sr_store st)) →
  rating_check score = true →
  (rate_store false uid gen now st score (c, db)).2
  = with_ratings (l ++ [apply_rating_patch now (set_rating_to score) e]) db.
Proof.
  intros Hc Hprof Hcp Hcache Hl Hkey Hscore.
  assert (Hne : score ≠ 0%Z) by (intros ->; done).
  injection Hkey as Hku Hks.
  pose proof (pk_ratings db Hc) as Hpk. pose proof (uq_ratings_user_store db Hc) as Huq.
  rewrite Hl in Hpk. rewrite Hl in Huq. rewrite fmap_app in Hpk. rewrite fmap_app in Huq.
  apply NoDup_app in Hpk as (_ & Hpk & _). apply NoDup_app in Huq as (_ & Huq & _).
  assert (Hfind : ∃ i, list_find (λ r, r_store_id r = s_id (sr_store st)) (userRatings c)
                       = Some (i, e)).
  { rewrite Hcache. rewrite Hl, filter_app.
    rewrite filter_cons_True, filter_nil by done.
    rewrite list_find_app_r.
    - simpl. rewrite decide_True by done. simpl. eauto.
    - apply list_find_None, Forall_forall.
      intros r [Hu Hr]%list_elem_of_filter Hs.
      apply (Huq (rating_key r)).
      + by apply list_elem_of_fmap_2.
      + unfold rating_key at 1. rewrite Hu, Hs, <- Hku, <- Hks. apply list_elem_of_here. }
  destruct Hfind as [i Hfind].
  assert (Hothers : Forall (λ r, bool_decide (r_id r = r_id e) && admits uid db [] (rating_row r)
                                 = false) l).
  { apply Forall_forall. intros r Hr. apply not_true_iff_false.
    intros [Hid%bool_decide_eq_true _]%andb_true_iff.
    apply (Hpk (r_id r)); [by apply list_elem_of_fmap_2|].
    rewrite Hid. apply list_elem_of_here. }
  assert (Hapi : api_update_rating false uid now (r_id e) score db
                 = Ok (with_ratings (l ++ [apply_rating_patch now (set_rating_to score) e]) db)).
  { unfold api_update_rating. rewrite expand_exempt.
    unfold mbind at 1, result_bind at 1.
    cbn [Rewriter.withCheckOptions Rewriter.securityQuals].
    unfold update_ratings. simpl from_option. rewrite (rating_check_int4 _ Hscore).
    simpl require. unfold mbind at 1, result_bind at 1. rewrite Hl.
    rewrite update_rows_last; [|exact Hothers | by rewrite bool_decide_true].
    assert (ratings_row_check l (apply_rating_patch now (set_rating_to score) e) = Ok ())
      as Hrow.
    { apply ratings_row_check_Ok. simpl. split_and!; [done| |].
      - intros Hin. by apply (Hpk (r_id e)); [|apply list_elem_of_here].
      - intros Hin. by apply (Huq (rating_key e)); [|apply list_elem_of_here]. }
    assert (ratings_fk db (apply_rating_patch now (set_rating_to score) e) = Ok ())
      as Hfk.
    { apply ratings_fk_Ok. simpl.
      pose proof (fk_ratings_user_id db Hc) as Hf1.
      pose proof (fk_ratings_store_id db Hc) as Hf2.
      rewrite Hl in Hf1, Hf2.
      apply Forall_app in Hf1 as [_ Hf1]. apply Forall_app in Hf2 as [_ Hf2].
      by inversion_clear Hf1; inversion_clear Hf2. }
    rewrite filter_snoc_one.
    - change ([] ++ l) with l. unfold mbind, result_bind. rewrite Hrow.
      simpl. unfold mbind, result_bind. by rewrite Hfk.
    - eapply Forall_impl; [exact Hothers|]. intros r Hr. simpl in *. rewrite Hr. exact (λ x, x).
    - by rewrite bool_decide_true. }
  unfold rate_store, handleSubmitRating. simpl.
  rewrite Hcp. rewrite decide_False by done. rewrite Hfind.
  cbn [fmap option_fmap option_map snd]. by rewrite Hapi.
Qed.

(** X17. A rater exempt from row security who has not rated store X
    submits 4 and then 5 through the dashboard.  Afterwards exactly one
    Rating row exists for (rater, X), its score is 5, the scores behind the
    store's summary are the other raters' scores and that single 5, and the
    store's count has grown by one. *)
Theorem rate_four_then_five_when_exempt
    (uid : option uuid) (gen gen' : uuid) (now now' : timestamptz)
    (c : UserDashboard) (db : DB) (prof : profile) (st : store_rating) :
  consistent db →
  prof ∈ profiles db →
  sr_store st ∈ stores db →
  ud_profile c = Some prof →
  userRatings c = filter (λ r, r_user_id r = p_id prof) (ratings db) →
  (∀ r, r ∈ ratings db → rating_key r ≠ (p_id prof, s_id (sr_store st))) →
  gen ∉ r_id <$> ratings db →
  let X := s_id (sr_store st) in
  let db2 := (rate_store false uid gen' now' st 5
                (rate_store false uid gen now st 4 (c, db))).2 in
  (∃ r, filter (λ r, rating_key r = (p_id prof, X)) (ratings db2) = [r] ∧
        r_rating r = 5%Z) ∧
  r_rating <$> ratings_of X db2 = (r_rating <$> ratings_of X db) ++ [5%Z] ∧
  ∃ row, row ∈ store_ratings db2 ∧ sr_store row = sr_store st ∧
         total_ratings row = (totalRatings X db + 1)%Z.
Proof.
  intros Hc Hprof Hst Hcp Hcache Hnone Hgen X db2.
  destruct (rate_store_insert uid gen now st 4 c db prof) as (c1 & E1 & Hp1 & Hc1 & Hcons1);
    try done.
  set (e := new_rating gen now (p_id prof) X 4) in *.
  set (db1 := with_ratings (ratings db ++ [e]) db) in *.
  assert (E2 : db2 = with_ratings
                       (ratings db ++ [apply_rating_patch now' (set_rating_to 5) e]) db1).
  { subst db2. rewrite E1.
    apply (rate_store_update uid gen' now' st 5 c1 db1 prof (ratings db) e); try done. }
  set (e5 := apply_rating_patch now' (set_rating_to 5) e) in *.
  assert (Hr2 : ratings db2 = ratings db ++ [e5]) by (by rewrite E2).
  assert (Hof : ratings_of X db2 = ratings_of X db ++ [e5]).
  { unfold ratings_of. rewrite Hr2, filter_app. f_equal.
    by rewrite filter_cons_True. }
  split; [|split].
  - exists e5. split; [|done]. rewrite Hr2. apply filter_snoc_one; [|done].
    apply Forall_forall. exact Hnone.
  - by rewrite Hof, fmap_app.
  - eexists. split; [|split].
    + apply (store_ratings_row db2 (sr_store st)).
      * rewrite E2. apply Hc.
      * by rewrite E2.
    + done.
    + simpl. unfold COUNT, totalRatings.
      rewrite non_null_column_joined, length_fmap. fold X.
      rewrite Hof, length_app. simpl. lia.
Qed.

Lemma rate_four_then_five_when_exempt_witness :
  consistent sample_db ∧
  let db2 := (rate_store false (Some 5%N) 305 11%Z corner_coffee_row 5
                (rate_store false (Some 5%N) 304 10%Z corner_coffee_row 4
                   (nadia_dashboard, sample_db))).2 in
  (∃ r, filter (λ r, rating_key r = (105%N, 201%N)) (ratings db2) = [r] ∧
        r_rating r = 5%Z) ∧
  r_rating <$> ratings_of 201 db2 = [3; 5; 4; 5]%Z.
Proof.
  pose proof (reachable_consistent _ sample_db_reachable) as Hc.
  split; [exact Hc|].
  destruct (rate_four_then_five_when_exempt (Some 5%N) 304 305 10%Z 11%Z nadia_dashboard
              sample_db nadia corner_coffee_row Hc) as (H1 & H2 & _).
  - do 4 apply list_elem_of_further. apply list_elem_of_here.
  - apply list_elem_of_here.
  - reflexivity.
  - reflexivity.
  - intros r Hr. apply list_elem_of_In in Hr. simpl in Hr.
    destruct Hr as [<-|[<-|[<-|[]]]]; discriminate.
  - vm_compute. intros H. apply list_elem_of_In in H. simpl in H. intuition discriminate.
  - split; [exact H1 | exact H2].
Defined.

(** ** The store owner's dashboard *)

Lemma filter_fmap_comm {A B} (f : A → B) (P : B → Prop) `{∀ y, Decision (P y)}
    (l : list A) :
  filter P (f <$> l) = f <$> filter (λ x, P (f x)) l.
Proof.
  induction l as [|x l IH]; [done|].
  rewrite fmap_cons, !filter_cons. destruct (decide (P (f x))); by rewrite IH.
Qed.

(** The rows of the view for the stores of one owner. *)
Lemma store_ratings_of_owner (db : DB) (owner : uuid) :
  NoDup (s_id <$> stores db) →
  filter (λ row, s_owner_id (sr_store row) = owner) (store_ratings db)
  ≡ₚ (λ S, summary_row S (ratings db)) <$> filter (λ s, s_owner_id s = owner) (stores db).
Proof.
  intros Hpk. rewrite (store_ratings_Permutation db Hpk).
  by rewrite filter_fmap_comm.
Qed.

(** Stores are readable by every caller. *)
Lemma api_stores_of_owner_all (row_security : bool) (uid : option uuid)
    (owner : uuid) (db : DB) :
  api_stores_of_owner row_security uid owner db
  = Ok (filter (λ s, s_owner_id s = owner) (stores db)).
Proof.
  unfold api_stores_of_owner.
  destruct row_security;
    [rewrite expand_public_read by done | rewrite expand_exempt];
    unfold mbind, result_bind; cbn [Rewriter.securityQuals]; f_equal;
    apply list_filter_iff; intros s;
    [rewrite admits_always | rewrite admits_nil];
    simpl; (split; [by intros [] | done]).
Qed.

(** X18. For an owner with exactly one store and a caller subject to row
    security, the two halves of the store dashboard part ways: the card
    shows the store with its summary, whose "Total Reviews" is the number of
    the store's ratings, while the list of reviews is left as it was and
    "Failed to fetch ratings" is shown. *)
Theorem owner_card_without_reviews
    (uid : option uuid) (prof : profile) (c : StoreOwnerDashboard) (db : DB) (S : store) :
  consistent db →
  filter (λ s, s_owner_id s = p_id prof) (stores db) = [S] →
  so_fetchData true uid (Some prof) c db
  = {| so_store := Some (summary_row S (ratings db));
       so_ratings := so_ratings c;
       so_toasts := so_toasts c ++ [Toast "Error" "Failed to fetch ratings" true] |} ∧
  total_ratings (summary_row S (ratings db))
  = Z.of_nat (length (ratings_of (s_id S) db)).
Proof.
  intros Hc HS.
  pose proof (store_ratings_of_owner db (p_id prof) (pk_stores db Hc)) as Hview.
  rewrite HS in Hview. simpl in Hview. apply Permutation_singleton_r in Hview.
  split; [|apply summary_row_total].
  unfold so_fetchData, fetchRatings. rewrite api_stores_of_owner_all, HS.
  rewrite listRatingsForStore_refused.
  unfold fetchStore. by rewrite Hview.
Qed.

Lemma owner_card_without_reviews_witness :
  consistent sample_db ∧
  filter (λ s, s_owner_id s = p_id olivia) (stores sample_db) = [corner_coffee] ∧
  so_ratings (so_fetchData true (Some 1%N) (Some olivia) empty_owner_dashboard sample_db)
  = [] ∧
  total_ratings (summary_row corner_coffee (ratings sample_db)) = 3%Z.
Proof.
  pose proof (reachable_consistent _ sample_db_reachable) as Hc.
  assert (HS : filter (λ s, s_owner_id s = p_id olivia) (stores sample_db) = [corner_coffee])
    by reflexivity.
  split; [exact Hc|]. split; [exact HS|].
  destruct (owner_card_without_reviews (Some 1%N) olivia empty_owner_dashboard sample_db
              corner_coffee Hc HS) as [Hfetch Htot].
  split; [by rewrite Hfetch | by rewrite Htot].
Defined.

(** X19. An owner who owns no store, or more than one, is shown nothing:
    neither query of the dashboard changes its state, and no error is
    reported. *)
Theorem owner_without_single_store_sees_nothing
    (row_security : bool) (uid : option uuid) (prof : profile)
    (c : StoreOwnerDashboard) (db : DB) :
  NoDup (s_id <$> stores db) →
  length (filter (λ s, s_owner_id s = p_id prof) (stores db)) ≠ 1 →
  so_fetchData row_security uid (Some prof) c db = c.
Proof.
  intros Hpk Hlen.
  pose proof (store_ratings_of_owner db (p_id prof) Hpk) as Hview.
  apply Permutation_length in Hview. rewrite length_fmap in Hview.
  unfold so_fetchData, fetchStore, fetchRatings. rewrite api_stores_of_owner_all.
  destruct (filter _ (store_ratings db)) as [|row [|row' rows]];
    destruct (filter _ (stores db)) as [|s [|s' ss]];
    simpl in *; try lia; by destruct c.
Qed.

Lemma owner_without_single_store_sees_nothing_witness :
  NoDup (s_id <$> stores sample_db) ∧
  length (filter (λ s, s_owner_id s = p_id ursula) (stores sample_db)) ≠ 1 ∧
  so_fetchData true (Some 2%N) (Some ursula) empty_owner_dashboard sample_db
  = empty_owner_dashboard.
Proof.
  assert (H1 : NoDup (s_id <$> stores sample_db)) by apply NoDup_singleton.
  assert (H2 : length (filter (λ s, s_owner_id s = p_id ursula) (stores sample_db)) ≠ 1)
    by (simpl; lia).
  split; [exact H1|]. split; [exact H2|].
  exact (owner_without_single_store_sees_nothing true (Some 2%N) ursula _ sample_db H1 H2).
Defined.

(** ** The admin dashboard *)

Lemma unless_nil (c : bool) (field message : string) :
  unless c field message = [] ↔ c = true.
Proof. destruct c; simpl; split; congruence. Qed.

(** What a caller exempt from row security reads from [profiles]. *)
Lemma api_select_profiles_exempt (uid : option uuid) (where_ : profile → bool) (db : DB) :
  api_select_profiles false uid where_ db = Ok (filter (λ p, where_ p) (profiles db)).
Proof.
  unfold api_select_profiles. rewrite expand_exempt.
  unfold mbind, result_bind. cbn [Rewriter.securityQuals]. f_equal.
  apply list_filter_iff. intros p. rewrite admits_nil. simpl.
  split; [by intros [] | done].
Qed.

Lemma api_select_profiles_refused (uid : option uuid) (where_ : profile → bool) (db : DB) :
  api_select_profiles true uid where_ db = Err (invalid_object_definition "profiles").
Proof. reflexivity. Qed.

Section AdminDashboard_facts.
Variable is_email : text → bool.
Variable error_message : pg_error → string.

Lemma storeSchema_nil (f : StoreForm) :
  storeSchema is_email f = [] →
  20 ≤ String.length (sf_name f) ≤ 60 ∧
  1 ≤ String.length (sf_address f) ≤ 400 ∧
  is_email (sf_email f) = true ∧ is_email (sf_ownerEmail f) = true.
Proof.
  unfold storeSchema. intros H.
  repeat match goal with
    | H : _ ++ _ = [] |- _ => apply app_eq_nil in H as [? H]
    | H : unless _ _ _ = [] |- _ => apply unless_nil in H
    | H : (_ <=? _) = true |- _ => apply Nat.leb_le in H
    end.
  done.
Qed.

Lemma userSchema_nil (f : UserForm) :
  userSchema is_email f = [] →
  20 ≤ String.length (uf_name f) ≤ 60 ∧
  is_email (uf_email f) = true ∧
  String.length (uf_address f) ≤ 400 ∧
  8 ≤ String.length (uf_password f) ≤ 16 ∧
  has_uppercase (uf_password f) = true ∧ has_special (uf_password f) = true.
Proof.
  unfold userSchema. intros H.
  repeat match goal with
    | H : _ ++ _ = [] |- _ => apply app_eq_nil in H as [? H]
    | H : unless _ _ _ = [] |- _ => apply unless_nil in H
    | H : (_ <=? _) = true |- _ => apply Nat.leb_le in H
    end.
  done.
Qed.

(** X20. Creating a store from the admin form either leaves the database as
    it was or adds exactly one store: the caller is then exempt from row
    security, the name has 20 to 60 characters, the address 1 to 400, both
    emails are well-formed, and the owner is the one profile whose email is
    the owner email of the form. *)
Theorem handleCreateStore_adds_a_valid_store
    (row_security : bool) (uid : option uuid) (gen : uuid) (now : timestamptz)
    (c : AdminDashboard) (db : DB) :
  let f := ad_storeForm c in
  let db' := (handleCreateStore is_email error_message row_security uid gen now c db).2 in
  db' = db ∨
  (row_security = false ∧
   20 ≤ String.length (sf_name f) ≤ 60 ∧
   1 ≤ String.length (sf_address f) ≤ 400 ∧
   is_email (sf_email f) = true ∧ is_email (sf_ownerEmail f) = true ∧
   ∃ owner,
     owner ∈ profiles db ∧ p_email owner = sf_ownerEmail f ∧
     (∀ q, q ∈ profiles db → p_email q = sf_ownerEmail f → q = owner) ∧
     db' = with_stores
             (stores db ++
                [{| s_id := gen; s_owner_id := p_id owner; s_name := sf_name f;
                    s_email := sf_email f; s_address := sf_address f;
                    s_created_at := now; s_updated_at := now |}]) db).
Proof.
  intros f db'. subst db'. unfold handleCreateStore, validateStoreForm. fold f.
  destruct (storeSchema is_email f) as [|i issues] eqn:Es; [|by left].
  apply storeSchema_nil in Es as ([? ?] & [? ?] & He & Ho).
  simpl negb. cbv iota. change (ad_storeForm (setErrors ∅ c)) with f.
  destruct row_security; [by left|].
  rewrite api_select_profiles_exempt.
  destruct (filter _ (profiles db)) as [|owner [|]] eqn:Ef; [by left| |by left].
  destruct (api_insert_store _ _ _ _ _ _ _ _ _) as [db'|e] eqn:Ei; [|by left].
  right. unfold api_insert_store in Ei. inv_ok.
  match goal with H : insert_store _ _ = Ok _ |- _ =>
    unfold insert_store in H; rename H into Hins end.
  inv_ok. subst db'.
  split_and!; [done..|]. exists owner.
  assert (Hin : ∀ q, q ∈ profiles db ∧ p_email q = sf_ownerEmail f ↔ q = owner).
  { intros q. rewrite <- (list_elem_of_singleton q owner), <- Ef, list_elem_of_filter.
    rewrite bool_decide_spec. tauto. }
  split_and!.
  - by apply (proj2 (Hin owner)).
  - by apply (proj2 (Hin owner)).
  - intros q Hq Heq. by apply Hin.
  - done.
Qed.

Lemma arrow_text_user_metadata (f : UserForm) :
  arrow_text (Some (user_metadata f)) "name" = Some (uf_name f) ∧
  arrow_text (Some (user_metadata f)) "role" = Some (role_label (uf_role f)).
Proof. unfold arrow_text, user_metadata. simpl. split; by simplify_map_eq. Qed.

(** X21. Creating a user from the admin form either leaves the database as
    it was or adds exactly one account and one profile; the profile has the
    name, the email and the role of the form and no address, whatever was
    typed in the form's address field, and the password met the four
    password rules. *)
Theorem handleCreateUser_adds_account_and_profile
    (row_security : bool) (uid : option uuid) (acct gen : uuid) (now : timestamptz)
    (c : AdminDashboard) (db : DB) :
  let f := ad_userForm c in
  let db' :=
    (handleCreateUser is_email error_message row_security uid acct gen now c db).2 in
  db' = db ∨
  (20 ≤ String.length (uf_name f) ≤ 60 ∧
   is_email (uf_email f) = true ∧
   8 ≤ String.length (uf_password f) ≤ 16 ∧
   has_uppercase (uf_password f) = true ∧ has_special (uf_password f) = true ∧
   db' = with_profiles
           (profiles db ++
              [{| p_id := gen; p_user_id := acct; p_name := uf_name f;
                  p_email := uf_email f; p_address := None; p_role := uf_role f;
                  p_created_at := now; p_updated_at := now |}])
           (with_auth_users
              (auth_users db ++
                 [{| acct_id := acct; acct_email := uf_email f;
                     raw_user_meta_data := Some (user_metadata f) |}]) db)).
Proof.
  intros f db'. subst db'. unfold handleCreateUser, validateUserForm. fold f.
  destruct (userSchema is_email f) as [|i issues] eqn:Es; [|by left].
  apply userSchema_nil in Es as ([? ?] & He & _ & [? ?] & Hup & Hsp).
  simpl negb. cbv iota. change (ad_userForm (setErrors ∅ c)) with f.
  destruct (auth_admin_createUser _ _ _ _ _ _) as [db'|e] eqn:Ec; [|by left].
  right. split_and!; [done..|]. simpl.
  unfold auth_admin_createUser, insert_auth_user, handle_new_user in Ec.
  destruct (arrow_text_user_metadata f) as [Hn Hr].
  simpl raw_user_meta_data in Ec. rewrite Hn, Hr, cast_user_role_label in Ec.
  inv_ok.
  match goal with H : insert_profile _ _ = Ok _ |- _ =>
    unfold insert_profile in H; rename H into Hins end.
  inv_ok. by subst.
Qed.

End AdminDashboard_facts.

(** ** Which statements the rewriter lets through *)

(** X22. For a caller subject to row security, the policies can be expanded
    for reading stores, for reading ratings, for deleting stores, and for a
    DELETE on profiles that reads none of its columns; for nothing else:
    every other statement on the three tables is refused with the recursion
    error on [profiles]. *)
Theorem rewrite_refuses_all_but_four_statements
    (rel : Rewriter.relation) (cmd : Rewriter.command) (reads : bool) :
  (is_ok (expand true rel cmd reads) = true ↔
     (rel, cmd) ∈ [(Rewriter.Stores, Rewriter.SELECT);
                   (Rewriter.Ratings, Rewriter.SELECT);
                   (Rewriter.Stores, Rewriter.DELETE)]
     ∨ (rel, cmd, reads) = (Rewriter.Profiles, Rewriter.DELETE, false)) ∧
  (is_ok (expand true rel cmd reads) = false →
   Rewriter.rewrite true rel cmd reads
   = Some (Err (invalid_object_definition "profiles"))).
Proof.
  split.
  - destruct rel, cmd, reads; vm_compute; split; try discriminate; try done;
      try (intros [H|H]; [|discriminate];
           apply list_elem_of_In in H; simpl in H; intuition discriminate);
      intros _; first
        [ by right
        | left; repeat first [ apply list_elem_of_here | apply list_elem_of_further ] ].
  - destruct rel, cmd, reads; vm_compute; congruence.
Qed.

(** ** The admin dashboard: messages and cards *)

Section AdminDashboard_messages.
Variable is_email : text → bool.

(** X23. Of several failed checks on one field of the user form the message
    of the last one in the schema is the one kept: a password is first told
    to contain a special character, then an uppercase letter, then to have
    at most 16 characters, then at least 8; a name at most 60, then at
    least 20.  A field that passes its checks has no message. *)
Theorem validateUserForm_keeps_last_message (c : AdminDashboard) :
  let f := ad_userForm c in
  let e := ad_errors (validateUserForm is_email c).2 in
  e !! "password" =
    (if negb (has_special (uf_password f))
     then Some "Password must contain at least one special character"
     else if negb (has_uppercase (uf_password f))
     then Some "Password must contain at least one uppercase letter"
     else if negb (String.length (uf_password f) <=? 16)
     then Some "Password must be at most 16 characters"
     else if negb (8 <=? String.length (uf_password f))
     then Some "Password must be at least 8 characters"
     else None) ∧
  e !! "name" =
    (if negb (String.length (uf_name f) <=? 60)
     then Some "Name must be at most 60 characters"
     else if negb (20 <=? String.length (uf_name f))
     then Some "Name must be at least 20 characters"
     else None) ∧
  e !! "email" =
    (if is_email (uf_email f) then None else Some "Invalid email address") ∧
  e !! "address" =
    (if String.length (uf_address f) <=? 400 then None
     else Some "Address must be at most 400 characters").
Proof.
  intros f e. subst e. unfold validateUserForm, userSchema. fold f.
  destruct (has_special (uf_password f)), (has_uppercase (uf_password f)),
    (String.length (uf_password f) <=? 16), (8 <=? String.length (uf_password f)),
    (String.length (uf_name f) <=? 60), (20 <=? String.length (uf_name f)),
    (is_email (uf_email f)), (String.length (uf_address f) <=? 400);
    vm_compute; done.
Qed.

End AdminDashboard_messages.

(** Counting the rows of a table everyone may read. *)
Lemma filter_admitted {A} (uid : option uuid) (db : DB) (row_security : bool)
    (f : A → row) (l : list A) :
  filter (λ a, admits uid db
                 (if row_security then [[Rewriter.SecurityQual Rewriter.always []]] else [])
                 (f a)) l = l.
Proof.
  apply filter_all, Forall_forall. intros a _. by destruct row_security.
Qed.

Lemma api_count_public (row_security : bool) (uid : option uuid) (db : DB) :
  api_count row_security uid Rewriter.Stores db = Ok (Z.of_nat (length (stores db))) ∧
  api_count row_security uid Rewriter.Ratings db = Ok (Z.of_nat (length (ratings db))).
Proof.
  pose proof (filter_admitted uid db row_security store_row (stores db)) as Hs.
  pose proof (filter_admitted uid db row_security rating_row (ratings db)) as Hr.
  unfold api_count.
  destruct row_security;
    [rewrite !expand_public_read by done | rewrite !expand_exempt];
    unfold mbind, result_bind; cbn [Rewriter.securityQuals];
    by rewrite Hs, Hr.
Qed.

Lemma api_count_profiles_exempt (uid : option uuid) (db : DB) :
  api_count false uid Rewriter.Profiles db = Ok (Z.of_nat (length (profiles db))).
Proof.
  pose proof (filter_admitted uid db false profile_row (profiles db)) as Hp.
  unfold api_count. rewrite expand_exempt.
  unfold mbind, result_bind. cbn [Rewriter.securityQuals]. by rewrite Hp.
Qed.

(** X26. After [fetchData] of the admin dashboard on a consistent database,
    Total Stores is the number of rows of the store table and Total Ratings
    the sum of its review counts.  For a caller subject to row security both
    reads of [profiles] are refused: Total Users is 0, the user table is
    left as it was and "Failed to fetch users" is shown.  For a caller
    exempt from it, Total Users is the number of rows of the user table. *)
Theorem admin_cards_and_tables
    (row_security : bool) (uid : option uuid) (db : DB) (c : AdminDashboard) :
  consistent db →
  let c' := ad_fetchData row_security uid db c in
  totalStores (ad_stats c') = Z.of_nat (length (ad_stores c')) ∧
  totalRatings_stat (ad_stats c') = SUM (total_ratings <$> ad_stores c') ∧
  if row_security
  then totalUsers (ad_stats c') = 0%Z ∧ ad_users c' = ad_users c ∧
       ad_toasts c' = ad_toasts c ++ [Toast "Error" "Failed to fetch users" true]
  else totalUsers (ad_stats c') = Z.of_nat (length (ad_users c')) ∧
       ad_toasts c' = ad_toasts c.
Proof.
  intros Hc c'. subst c'.
  destruct (api_count_public row_security uid db) as [Hstores Hratings].
  pose proof (store_ratings_Permutation db (pk_stores db Hc)) as Hperm.
  assert (Hsorted : api_store_ratings db ≡ₚ (λ S, summary_row S (ratings db)) <$> stores db).
  { unfold api_store_ratings. by rewrite merge_sort_Permutation. }
  unfold ad_fetchData, ad_fetchStores, fetchUsers, fetchStats.
  rewrite Hstores, Hratings.
  split_and!.
  - destruct (api_select_profiles _ _ _ _); simpl;
      by rewrite (Permutation_length Hsorted), length_fmap.
  - assert (SUM (total_ratings <$> api_store_ratings db) = Z.of_nat (length (ratings db)))
      as Hsum.
    { rewrite (SUM_Permutation _ _ (fmap_Permutation total_ratings _ _ Hsorted)).
      rewrite <- list_fmap_compose.
      rewrite <- (ratings_per_store_add_up (stores db) (ratings db)); [|apply Hc..].
      f_equal. apply list_fmap_ext. intros i S _. simpl.
      apply (summary_row_total S db). }
    destruct (api_select_profiles _ _ _ _); simpl; by rewrite Hsum.
  - destruct row_security.
    + rewrite api_select_profiles_refused. done.
    + rewrite api_select_profiles_exempt, api_count_profiles_exempt. simpl.
      split; [|done].
      rewrite (Permutation_length (merge_sort_Permutation _ _)).
      rewrite filter_all; [done|]. by apply Forall_forall.
Qed.

Lemma admin_cards_and_tables_witness :
  consistent sample_db ∧
  totalRatings_stat (ad_stats (ad_fetchData true (Some 2%N) sample_db empty_admin_dashboard))
  = SUM (total_ratings
           <$> ad_stores (ad_fetchData true (Some 2%N) sample_db empty_admin_dashboard)) ∧
  totalUsers (ad_stats (ad_fetchData true (Some 2%N) sample_db empty_admin_dashboard)) = 0%Z.
Proof.
  pose proof (reachable_consistent _ sample_db_reachable) as Hc.
  split; [exact Hc|].
  destruct (admin_cards_and_tables true (Some 2%N) sample_db empty_admin_dashboard Hc)
    as (_ & Hsum & Husers & _).
  split; [exact Hsum | exact Husers].
Defined.
